(** * digenv: printenv [| grep ARGS] | sort | pager

    A shallow embedding of [lab 1/digenv.c] and the properties of its
    pipeline construction, stage wiring, pager selection and child reaping.

    The C program is one [main] that calls [fork] four times; every call
    returns twice.  The embedding keeps that shape: [main] is a single
    program over system calls, and the interpreter [run] continues a
    successful [fork] both as the child (return value 0) and as the parent
    (return value = the child's pid), each on its own copy of the
    descriptor table. *)

From Stdlib Require Import ZArith String List Lia DecimalString.
From stdpp Require Import base option list gmap strings.

Open Scope string_scope.
Open Scope list_scope.
Open Scope Z_scope.

(** ** Descriptors and pipes *)

(** [typedef int pipe_def[2]]: the two descriptors filled in by [pipe]. *)
Definition pipe_def : Type := Z * Z.

(** [#define PIPE_IN 0] and [#define PIPE_OUT 1]: the read and the write
    side of a [pipe_def]. *)
Definition PIPE_IN : nat := 0.
Definition PIPE_OUT : nat := 1.

(** [p[side]] for a [pipe_def]. *)
Definition side_of (p : pipe_def) (side : nat) : Z :=
  match side with O => p.1 | _ => p.2 end.

(** [pipes[i][side]] for [pipe_def pipes[3]]. *)
Definition fd_at (pipes : list pipe_def) (i side : nat) : Z :=
  side_of (pipes !!! i) side.

Definition STDIN_FILENO : Z := 0.
Definition STDOUT_FILENO : Z := 1.

(** What an open descriptor refers to: something the process was started
    with, or one end of the [p]-th pipe created by this program. *)
Inductive pend := ReadEnd | WriteEnd.

Inductive fobj :=
| Inherited (fd : Z)
| PipeEnd (p : nat) (e : pend).

#[global] Instance pend_eq_dec : EqDecision pend.
Proof. solve_decision. Defined.

#[global] Instance fobj_eq_dec : EqDecision fobj.
Proof. solve_decision. Defined.

(** The kernel hands out the lowest descriptor that is not open. *)
Fixpoint lowest_from (t : gmap Z fobj) (fuel : nat) (n : Z) : Z :=
  match fuel with
  | O => n
  | S fuel' =>
      match t !! n with
      | None => n
      | Some _ => lowest_from t fuel' (n + 1)
      end
  end.

Definition lowest_free (t : gmap Z fobj) : Z := lowest_from t (size t) 0.

(** ** System calls *)

Inductive call : Type -> Type :=
| Pipe : call (Z * pipe_def)
| Fork : call Z
| Dup2 (oldfd newfd : Z) : call Z
| Close (fd : Z) : call Z
| Execlp (file : string) (args : list string) : call Z
| Execvp (file : string) (argv : list string) : call Z
| Getenv (name : string) : call (option string)
| Printf (s : string) : call unit
| Perror (s : string) : call unit
| Wait : call (Z * Z)
| Exit (status : Z) : call Empty_set.

(** Programs: a system call and what is done with its return value. *)
Inductive prog (A : Type) : Type :=
| Ret (a : A)
| Vis {R : Type} (c : call R) (k : R -> prog A).

Arguments Ret {A} a.
Arguments Vis {A R} c k.

Fixpoint bind {A B : Type} (p : prog A) (f : A -> prog B) : prog B :=
  match p with
  | Ret a => f a
  | Vis c k => Vis c (fun r => bind (k r) f)
  end.

#[global] Instance prog_ret : MRet prog := @Ret.
#[global] Instance prog_bind : MBind prog := fun A B f p => bind p f.

Definition pipe : prog (Z * pipe_def) := Vis Pipe Ret.
Definition fork : prog Z := Vis Fork Ret.
Definition dup2 (oldfd newfd : Z) : prog Z := Vis (Dup2 oldfd newfd) Ret.
Definition close (fd : Z) : prog Z := Vis (Close fd) Ret.
Definition execlp (file : string) (args : list string) : prog Z :=
  Vis (Execlp file args) Ret.
Definition execvp (file : string) (argv : list string) : prog Z :=
  Vis (Execvp file argv) Ret.
Definition getenv (name : string) : prog (option string) := Vis (Getenv name) Ret.
Definition printf (s : string) : prog unit := Vis (Printf s) Ret.
Definition perror (s : string) : prog unit := Vis (Perror s) Ret.
Definition wait : prog (Z * Z) := Vis Wait Ret.
Definition exit {A : Type} (status : Z) : prog A :=
  Vis (Exit status) (fun v : Empty_set => match v with end).

(** ** <sys/wait.h>

    The status word written by [wait], decoded as glibc does on Linux
    (bits/waitstatus.h). *)
Definition WTERMSIG (status : Z) : Z := Z.land status 127.
Definition WEXITSTATUS (status : Z) : Z := Z.shiftr (Z.land status 65280) 8.
Definition WIFEXITED (status : Z) : bool := WTERMSIG status =? 0.

(** [(signed char) x] for [0 <= x < 256]. *)
Definition signed_char (x : Z) : Z := if x <? 128 then x else x - 256.

Definition WIFSIGNALED (status : Z) : bool :=
  0 <? Z.shiftr (signed_char (Z.land status 127 + 1)) 1.

(** The newline character of the format strings, and [%d]. *)
Definition nl : string := String (Ascii.ascii_of_nat 10) "".

Definition dec (n : Z) : string := NilZero.string_of_int (Z.to_int n).

(** ** The program *)

(** Lines 67-74. *)
Definition check_sys_return (sys_ret : Z) (error_string : string) : prog unit :=
  if decide (-1 = sys_ret) then
    perror error_string;;
    exit 1
  else mret tt.

(** Lines 95-99: [for (i = 0; i < 3; ++i)], [n] iterations left, [pipes]
    the entries filled in so far. *)
Fixpoint create_pipes (n : nat) (pipes : list pipe_def) : prog (list pipe_def) :=
  match n with
  | O => mret pipes
  | S n' =>
      '(sys_return, p) ← pipe;
      check_sys_return sys_return "Error when creating pipe";;
      create_pipes n' (pipes ++ [p])
  end.

(** Lines 106-125: the body of [if (0 == pid)] after the first [fork]. *)
Definition stage_printenv (pipes : list pipe_def) (cur : nat) : prog unit :=
  sys_return ← dup2 (fd_at pipes cur PIPE_OUT) STDOUT_FILENO;
  check_sys_return sys_return "@printenv: Error when duplicating pipe";;
  sys_return ← close (fd_at pipes cur PIPE_IN);
  check_sys_return sys_return "@printenv: Error when closing read side of pipe";;
  sys_return ← close (fd_at pipes cur PIPE_OUT);
  check_sys_return sys_return "@printenv: Error when closing write side of pipe";;
  execlp "printenv" ["printenv"];;
  perror "Problem with call to printenv";;
  exit 1.

(** Lines 139-160: the body of [if (0 == pid)] after the second [fork]. *)
Definition stage_grep (argv : list string) (pipes : list pipe_def) (cur : nat)
  : prog unit :=
  sys_return ← dup2 (fd_at pipes (cur - 1) PIPE_IN) STDIN_FILENO;
  check_sys_return sys_return "@grep: Error when duplicating read side of pipe";;
  sys_return ← close (fd_at pipes (cur - 1) PIPE_OUT);
  check_sys_return sys_return "@grep: Error when closing read side of pipe";;
  sys_return ← dup2 (fd_at pipes cur PIPE_OUT) STDOUT_FILENO;
  check_sys_return sys_return "@grep: Error when duplicating read side of pipe";;
  sys_return ← close (fd_at pipes cur PIPE_IN);
  check_sys_return sys_return "@grep: Error when closing read side of pipe";;
  execvp "grep" argv;;
  perror "Problem with call to grep";;
  exit 1.

(** Lines 181-204: the body of [if (0 == pid)] after the third [fork]. *)
Definition stage_sort (pipes : list pipe_def) (cur : nat) : prog unit :=
  sys_return ← dup2 (fd_at pipes (cur - 1) PIPE_IN) STDIN_FILENO;
  check_sys_return sys_return "@sort: Error when duplicating read side of pipe";;
  sys_return ← close (fd_at pipes (cur - 1) PIPE_OUT);
  check_sys_return sys_return "@sort: Error when closing write side of pipe";;
  sys_return ← dup2 (fd_at pipes cur PIPE_OUT) STDOUT_FILENO;
  check_sys_return sys_return "@sort: Error when duplicating read side of pipe";;
  sys_return ← close (fd_at pipes cur PIPE_IN);
  check_sys_return sys_return "@sort: Error when closing write side of pipe";;
  execlp "sort" ["sort"];;
  perror "Problem with call to sort";;
  exit 1.

(** Lines 241-252: which pager to run. *)
Definition check_pager : prog unit :=
  pager ← getenv "PAGER";
  match pager with
  | Some pager =>
      printf ("Found PAGER: " +:+ pager);;
      execlp pager [pager];;
      mret tt
  | None => mret tt
  end;;
  execlp "less" ["less"];;
  execlp "more" ["more"];;
  perror "Problem with call to pager";;
  exit 1.

(** Lines 224-252: the body of [if (0 == pid)] after the last [fork]. *)
Definition stage_pager (pipes : list pipe_def) (cur : nat) : prog unit :=
  sys_return ← dup2 (fd_at pipes (cur - 1) PIPE_IN) STDIN_FILENO;
  check_sys_return sys_return "@pager: Error when duplicating read side of pipe";;
  sys_return ← close (fd_at pipes (cur - 1) PIPE_OUT);
  check_sys_return sys_return "@pager: Error when closing write side of pipe";;
  check_pager.

(** Lines 169-172, 212-215 and 260-263: the parent closes [pipes[cur-2]]. *)
Definition close_behind (pipes : list pipe_def) (cur : nat) : prog unit :=
  sys_return ← close (fd_at pipes (cur - 2) PIPE_IN);
  check_sys_return sys_return "Error when closing read side of pipe";;
  sys_return ← close (fd_at pipes (cur - 2) PIPE_OUT);
  check_sys_return sys_return "Error when closing read side of pipe".

(** Lines 85-263: everything [main] does before it waits.  The value is
    [cur], the number of stages created. *)
Definition build (argv : list string) : prog nat :=
  let argc := Z.of_nat (length argv) in
  let grep := if decide (argc > 1) then 1 else 0 in
  let cur := 0%nat in
  pipes ← create_pipes 3 [];
  pid ← fork;
  check_sys_return pid "Error when forking";;
  (if decide (0 = pid) then stage_printenv pipes cur else mret tt);;
  let cur := S cur in
  cur ← (if decide (grep ≠ 0) then
           pid ← fork;
           check_sys_return pid "Error when forking";;
           (if decide (0 = pid) then stage_grep argv pipes cur else mret tt);;
           let cur := S cur in
           close_behind pipes cur;;
           mret cur
         else mret cur);
  pid ← fork;
  check_sys_return pid "Error when forking";;
  (if decide (0 = pid) then stage_sort pipes cur else mret tt);;
  let cur := S cur in
  close_behind pipes cur;;
  pid ← fork;
  check_sys_return pid "Error when forking";;
  (if decide (0 = pid) then stage_pager pipes cur else mret tt);;
  let cur := S cur in
  close_behind pipes cur;;
  mret cur.

(** The messages of lines 279 and 288, with their two [%d] filled in. *)
Definition exit_diag (child_status pid : Z) : string :=
  "A child had problem and failed with exit code " +:+ dec child_status
  +:+ "." +:+ nl +:+ "Child pid: " +:+ dec pid +:+ nl.

Definition signal_diag (child_status pid : Z) : string :=
  "A child had problem and failed with signal " +:+ dec child_status
  +:+ "." +:+ nl +:+ "Child pid: " +:+ dec pid +:+ nl.

(** Lines 271-291: one iteration of the wait loop; the value is the new
    [exit_value].  Line 289 is [exit_value == child_status;], a comparison
    whose value is dropped: [exit_value] is left as it was. *)
Definition reap_child (exit_value : Z) : prog Z :=
  '(pid, return_status) ← wait;
  check_sys_return pid "@digenv: wait() returned unexpectedly";;
  if WIFEXITED return_status then
    let child_status := WEXITSTATUS return_status in
    if decide (0 = exit_value ∧ 0 ≠ child_status) then
      printf (exit_diag child_status pid);;
      mret child_status
    else mret exit_value
  else
    if decide (0 = exit_value ∧ WIFSIGNALED return_status = true) then
      let child_status := WTERMSIG return_status in
      printf (signal_diag child_status pid);;
      let _ := exit_value =? child_status in
      mret exit_value
    else mret exit_value.

(** Lines 269-292: [for (i = 0; i < cur; ++i)], [n] iterations left. *)
Fixpoint reap (n : nat) (exit_value : Z) : prog Z :=
  match n with
  | O => mret exit_value
  | S n' =>
      exit_value ← reap_child exit_value;
      reap n' exit_value
  end.

(** Lines 80-295. *)
Definition main (argv : list string) : prog Empty_set :=
  cur ← build argv;
  exit_value ← reap cur 0;
  exit exit_value.

(** ** Processes and the world they run in *)

(** What the program cannot decide itself.  A process is named by the
    clocks of the [fork] calls that lead to it ([[]] is the process the
    user started); its clock counts the calls it has issued, a child
    starting from its parent's count. *)
Record world := World {
  (** descriptors open when the program is started *)
  open_at_start : list Z;
  (** the call a process issues at a clock fails for a reason outside the
      program (EMFILE, EAGAIN, ENOENT, EINTR, ...) *)
  fault : list nat -> nat -> bool;
  (** the pid of the child a [fork] creates *)
  child_pid : list nat -> nat -> positive;
  (** the environment, the same in every process: nothing changes it *)
  environ : string -> option string;
  (** what the successive [wait] calls of the parent report, as (pid, status
      word); with nothing left to report [wait] fails (ECHILD) *)
  reaped : list (positive * Z)
}.

Record pstate := PState {
  fdt : gmap Z fobj;
  clock : nat;
  npipes : nat;
  nwaits : nat
}.

Definition boot (w : world) : pstate :=
  PState (list_to_map ((fun fd => (fd, Inherited fd)) <$> open_at_start w)) 0 0 0.

Inductive event :=
| EvPipe (ret : Z) (fds : pipe_def)
| EvFork (ret : Z)
| EvDup2 (oldfd newfd ret : Z)
| EvClose (fd ret : Z)
| EvExeclp (file : string) (args : list string) (ok : bool)
| EvExecvp (file : string) (argv : list string) (ok : bool)
| EvGetenv (name : string) (val : option string)
| EvPrintf (s : string)
| EvPerror (s : string)
| EvWait (pid status : Z)
| EvExit (status : Z).

(** How a process ends: [exit], or a successful [exec]. *)
Inductive outcome :=
| Exited (status : Z)
| Became (file : string) (argv : list string).

Inductive result (A : Type) :=
| Returned (a : A) (st : pstate)
| Ended (o : outcome) (st : pstate).

Arguments Returned {A} a st.
Arguments Ended {A} o st.

(** A child: its name and pid, the state it was born with, how it ended and
    what it did in between. *)
Record proc (A : Type) := Proc {
  who : list nat;
  pid_of : Z;
  born : pstate;
  fate : result A;
  did : list event
}.

Arguments Proc {A} who pid_of born fate did.
Arguments who {A} p.
Arguments pid_of {A} p.
Arguments born {A} p.
Arguments fate {A} p.
Arguments did {A} p.

(** A run of one process: how it ended, what it did, and the processes
    created on the way (a process after its own descendants, siblings in
    the order of their creation). *)
Record run_result (A : Type) := Run {
  res : result A;
  trace : list event;
  spawned : list (proc A)
}.

Arguments Run {A} res trace spawned.
Arguments res {A} r.
Arguments trace {A} r.
Arguments spawned {A} r.

Definition sem (A : Type) : Type := list nat -> pstate -> run_result A.

Definition tick (st : pstate) (t : gmap Z fobj) : pstate :=
  PState t (S (clock st)) (npipes st) (nwaits st).

Definition step {A : Type} (e : event) (r : run_result A) : run_result A :=
  Run (res r) (e :: trace r) (spawned r).

Definition do_pipe (np : nat) (t : gmap Z fobj) : pipe_def * gmap Z fobj :=
  let rd := lowest_free t in
  let t1 := <[rd := PipeEnd np ReadEnd]> t in
  let wr := lowest_free t1 in
  ((rd, wr), <[wr := PipeEnd np WriteEnd]> t1).

(** [dup2]: EBADF for a descriptor that is not open or a negative target;
    nothing to do when both are the same; otherwise the target is silently
    replaced. *)
Definition do_dup2 (t : gmap Z fobj) (oldfd newfd : Z) : Z * gmap Z fobj :=
  match t !! oldfd with
  | None => (-1, t)
  | Some o =>
      if decide (newfd < 0) then (-1, t)
      else if decide (oldfd = newfd) then (newfd, t)
      else (newfd, <[newfd := o]> t)
  end.

(** [close]: EBADF for a descriptor that is not open. *)
Definition do_close (t : gmap Z fobj) (fd : Z) : Z * gmap Z fobj :=
  match t !! fd with
  | None => (-1, t)
  | Some _ => (0, delete fd t)
  end.

(** A call that fails for an outside reason returns -1 and leaves the
    descriptor table alone. *)
Definition guarded (w : world) (me : list nat) (st : pstate)
    (r : Z * gmap Z fobj) : Z * gmap Z fobj :=
  if fault w me (clock st) then (-1, fdt st) else r.

Definition sys {A R : Type} (w : world) (c : call R) : (R -> sem A) -> sem A :=
  match c in call R return (R -> sem A) -> sem A with
  | Pipe => fun k me st =>
      if fault w me (clock st) then
        step (EvPipe (-1) (0, 0)) (k (-1, (0, 0)) me (tick st (fdt st)))
      else
        let pt := do_pipe (npipes st) (fdt st) in
        step (EvPipe 0 pt.1)
          (k (0, pt.1) me (PState pt.2 (S (clock st)) (S (npipes st)) (nwaits st)))
  | Fork => fun k me st =>
      let st' := tick st (fdt st) in
      if fault w me (clock st) then step (EvFork (-1)) (k (-1) me st')
      else
        let pid := Z.pos (child_pid w me (clock st)) in
        let child := k 0 (clock st :: me) st' in
        let parent := k pid me st' in
        Run (res parent) (EvFork pid :: trace parent)
          (spawned child
           ++ Proc (clock st :: me) pid st' (res child) (trace child)
           :: spawned parent)
  | Dup2 oldfd newfd => fun k me st =>
      let rt := guarded w me st (do_dup2 (fdt st) oldfd newfd) in
      step (EvDup2 oldfd newfd rt.1) (k rt.1 me (tick st rt.2))
  | Close fd => fun k me st =>
      let rt := guarded w me st (do_close (fdt st) fd) in
      step (EvClose fd rt.1) (k rt.1 me (tick st rt.2))
  | Execlp file args => fun k me st =>
      if fault w me (clock st) then
        step (EvExeclp file args false) (k (-1) me (tick st (fdt st)))
      else Run (Ended (Became file args) st) [EvExeclp file args true] []
  | Execvp file argv => fun k me st =>
      if fault w me (clock st) then
        step (EvExecvp file argv false) (k (-1) me (tick st (fdt st)))
      else Run (Ended (Became file argv) st) [EvExecvp file argv true] []
  | Getenv name => fun k me st =>
      step (EvGetenv name (environ w name))
        (k (environ w name) me (tick st (fdt st)))
  | Printf s => fun k me st => step (EvPrintf s) (k tt me (tick st (fdt st)))
  | Perror s => fun k me st => step (EvPerror s) (k tt me (tick st (fdt st)))
  | Wait => fun k me st =>
      let st' := PState (fdt st) (S (clock st)) (npipes st) (S (nwaits st)) in
      match reaped w !! nwaits st with
      | Some (pid, status) =>
          step (EvWait (Z.pos pid) status) (k (Z.pos pid, status) me st')
      | None => step (EvWait (-1) 0) (k (-1, 0) me st')
      end
  | Exit status => fun _ me st =>
      Run (Ended (Exited status) st) [EvExit status] []
  end.

Fixpoint run {A : Type} (w : world) (p : prog A) : sem A :=
  match p with
  | Ret a => fun _ st => Run (Returned a st) [] []
  | Vis c k => sys w c (fun r => run w (k r))
  end.

(** The whole program, started by the user with [argv]. *)
Definition digenv (w : world) (argv : list string) : run_result Empty_set :=
  run w (main argv) [] (boot w).

(** Test world: the standard streams are open and no call fails for an
    outside reason. *)
Definition calm (env : string -> option string) (rs : list (positive * Z)) : world :=
  World [0; 1; 2] (fun _ _ => false) (fun _ n => Pos.of_nat (100 + n)) env rs.

(** ** <stdio.h>

    [printf] puts its text in the buffer of stdout.  The buffer is written
    to descriptor 1 when a line is complete and stdout is line buffered (it
    is when it is a terminal, and fully buffered otherwise: the program
    calls neither [setvbuf] nor [fflush]), when the text has no room in it,
    and by [exit].  A successful [exec] replaces the image of the process,
    the buffer with it: what is still in the buffer then is never
    written. *)
Inductive buffering := LineBuffered | FullyBuffered.

Record stdio := Stdio {
  mode : buffering;
  (** the size of the buffer, in characters *)
  capacity : nat
}.

Fixpoint has_newline (s : string) : bool :=
  match s with
  | EmptyString => false
  | String a s' => Ascii.eqb a (Ascii.ascii_of_nat 10) || has_newline s'
  end.

(** [s] up to its last newline, and what follows it. *)
Fixpoint complete_lines (s : string) : string :=
  match s with
  | EmptyString => EmptyString
  | String a s' =>
      if Ascii.eqb a (Ascii.ascii_of_nat 10) || has_newline s'
      then String a (complete_lines s')
      else EmptyString
  end.

Fixpoint unfinished_line (s : string) : string :=
  match s with
  | EmptyString => EmptyString
  | String a s' =>
      if Ascii.eqb a (Ascii.ascii_of_nat 10) || has_newline s'
      then unfinished_line s'
      else s
  end.

(** [printf] of [s] with [pending] in the buffer: the text written to
    descriptor 1 and the text left in the buffer.  Of a text that has no
    room the model takes all as written; how the library divides it between
    the descriptor and the buffer is left out. *)
Definition put (io : stdio) (pending s : string) : string * string :=
  let all := pending +:+ s in
  if (capacity io <? String.length all)%nat then (all, "")
  else
    match mode io with
    | LineBuffered =>
        if has_newline s then (complete_lines all, unfinished_line all)
        else ("", all)
    | FullyBuffered => ("", all)
    end.

(** The standard output of a process: what has been written to descriptor
    1, and what is in the buffer. *)
Record out := Out {
  wrote : string;
  pending : string
}.

Definition stdio_step (io : stdio) (o : out) (e : event) : out :=
  match e with
  | EvPrintf s =>
      let wp := put io (pending o) s in Out (wrote o +:+ wp.1) wp.2
  | EvExit _ => Out (wrote o +:+ pending o) ""
  | EvExeclp _ _ true | EvExecvp _ _ true => Out (wrote o) ""
  | _ => o
  end.

(** What the calls of [tr] have made of the standard output of a process
    that started with an empty buffer. *)
Definition stdio_run (io : stdio) (tr : list event) : out :=
  fold_left (stdio_step io) tr (Out "" "").

(** The text has room in the buffer and completes no line that would make
    a line-buffered stdout write it. *)
Definition stays_buffered (io : stdio) (s : string) : Prop :=
  (String.length s <= capacity io)%nat
  /\ (mode io = LineBuffered -> has_newline s = false).

(** All the text of the [printf] calls of a trace. *)
Fixpoint text_of (tr : list event) : string :=
  match tr with
  | [] => ""
  | EvPrintf s :: tr' => s +:+ text_of tr'
  | _ :: tr' => text_of tr'
  end.

(** No call of the trace has turned the process into another program. *)
Definition stays (tr : list event) : Prop :=
  Forall (fun e => match e with
                   | EvExeclp _ _ ok | EvExecvp _ _ ok => ok = false
                   | _ => True
                   end) tr.

(** ** Sequencing *)

(** What [p ≫= f] does after [p]: a process that came back from [p] goes on
    with [f], in the parent and in every child alike. *)
Definition continue {A B : Type} (h : A -> sem B) (me : list nat)
    (r : result A) : run_result B :=
  match r with
  | Returned a st => h a me st
  | Ended o st => Run (Ended o st) [] []
  end.

Definition continue_proc {A B : Type} (h : A -> sem B) (c : proc A)
  : list (proc B) :=
  let r := continue h (who c) (fate c) in
  spawned r ++ [Proc (who c) (pid_of c) (born c) (res r) (did c ++ trace r)].

Definition then_run {A B : Type} (h : A -> sem B) (me : list nat)
    (r : run_result A) : run_result B :=
  let r' := continue h me (res r) in
  Run (res r') (trace r ++ trace r')
    (flat_map (continue_proc h) (spawned r) ++ spawned r').

(** ** The vocabulary of the properties *)

(** A call that came back with an error. *)
Definition failed (e : event) : bool :=
  match e with
  | EvPipe ret _ | EvFork ret | EvDup2 _ _ ret | EvClose _ ret | EvWait ret _ =>
      bool_decide (ret = -1)
  | EvExeclp _ _ ok | EvExecvp _ _ ok => negb ok
  | _ => false
  end.

(** The calls only the parent is meant to issue. *)
Definition builder_call (e : event) : bool :=
  match e with
  | EvPipe _ _ | EvFork _ | EvWait _ _ => true
  | _ => false
  end.

Definition is_exec (e : event) : bool :=
  match e with
  | EvExeclp _ _ _ | EvExecvp _ _ _ => true
  | _ => false
  end.

Definition is_printf (e : event) : bool :=
  match e with
  | EvPrintf _ => true
  | _ => false
  end.

(** The trace ends with a [perror] and [exit(1)]. *)
Fixpoint reported (tr : list event) : bool :=
  match tr with
  | [] => false
  | e :: tr' =>
      match e, tr' with
      | EvPerror _, [EvExit status] => bool_decide (status = 1)
      | _, _ => reported tr'
      end
  end.

(** What the last stage may turn into, in the order of lines 246-250. *)
Definition pager_candidates (pager : option string)
  : list (string * list string) :=
  match pager with
  | Some pager => [(pager, [pager])]
  | None => []
  end ++ [("less", ["less"]); ("more", ["more"])].

(** A stage process has no children, and either gives up with a message and
    status 1 or turns into one of its targets; it issues none of the
    parent's calls. *)
Record stage_ends (targets : list (string * list string))
    (r : run_result unit) : Prop := {
  ends_alone : spawned r = [];
  ends_how :
    (exists st, res r = Ended (Exited 1) st /\ reported (trace r) = true)
    \/ (exists f v st, res r = Ended (Became f v) st /\ (f, v) ∈ targets);
  ends_apart : forallb (fun e => negb (builder_call e)) (trace r) = true
}.

(** [execvp] is called on [file] with [argv], if at all. *)
Definition execvp_as (file : string) (argv : list string) (e : event) : Prop :=
  match e with
  | EvExecvp file' argv' _ => file' = file /\ argv' = argv
  | _ => True
  end.

Definition execvp_free (e : event) : Prop :=
  match e with
  | EvExecvp _ _ _ => False
  | _ => True
  end.

(** Where PAGER is looked up and found, no [exec] has been tried before and
    the next call is the [printf] of line 245. *)
Definition announces (tr : list event) : Prop :=
  forall pre v post,
    tr = pre ++ EvGetenv "PAGER" (Some v) :: post ->
    forallb (fun e => negb (is_exec e)) pre = true
    /\ exists post', post = EvPrintf ("Found PAGER: " +:+ v) :: post'.

(** The [exec] calls of a trace, and a failed attempt at a candidate. *)
Definition execs (tr : list event) : list event := filter is_exec tr.

Definition missed (c : string * list string) : event := EvExeclp c.1 c.2 false.

(** Candidates are tried in order up to the first that can be run; with
    none, the process gives up. *)
Definition falls_through (cands : list (string * list string))
    (o : outcome) (tr : list event) : Prop :=
  (exists k f v,
      cands !! k = Some (f, v)
      /\ execs tr = (missed <$> take k cands) ++ [EvExeclp f v true]
      /\ o = Became f v)
  \/ (execs tr = missed <$> cands /\ o = Exited 1 /\ reported tr = true).

(** PAGER is looked up. *)
Definition consults_pager (tr : list event) : bool :=
  existsb (fun e => match e with EvGetenv _ _ => true | _ => false end) tr.

Definition side (e : pend) : nat :=
  match e with
  | ReadEnd => PIPE_IN
  | WriteEnd => PIPE_OUT
  end.

(** Apart from descriptors 0 and 1, the pipe ends a table holds are those
    listed in [open], each at the descriptor [pipes] has for it and nowhere
    else. *)
Definition layout (pipes : list pipe_def) (open : list (nat * pend))
    (t : gmap Z fobj) : Prop :=
  (forall p e, (p, e) ∈ open ->
     fd_at pipes p (side e) <> 0 /\ fd_at pipes p (side e) <> 1)
  /\ forall fd p e,
       fd <> 0 -> fd <> 1 ->
       t !! fd = Some (PipeEnd p e)
       <-> (p, e) ∈ open /\ fd = fd_at pipes p (side e).

(** Descriptors 0 and 1 are what the program was started with. *)
Definition std (t : gmap Z fobj) : Prop :=
  t !! 0 = Some (Inherited 0) /\ t !! 1 = Some (Inherited 1).

Definition without (x : nat * pend) (open : list (nat * pend))
  : list (nat * pend) :=
  List.filter (fun y => negb (bool_decide (y = x))) open.

(** [t] is the table a stage was born with and [t'] the one it has at its
    successful [exec]; [inp] and [outp] are the pipes it reads from and
    writes to.  Descriptor 0 is the read end of [inp] and the process holds
    no write end of it; descriptor 1 is the write end of [outp] and the
    process holds no read end of it; the ends of every other pipe are held
    exactly as they were at birth. *)
Definition tidy (inp outp : option nat) (t t' : gmap Z fobj) : Prop :=
  (forall p, inp = Some p ->
     t' !! 0 = Some (PipeEnd p ReadEnd)
     /\ forall fd, t' !! fd <> Some (PipeEnd p WriteEnd))
  /\ (forall p, outp = Some p ->
        t' !! 1 = Some (PipeEnd p WriteEnd)
        /\ forall fd, t' !! fd <> Some (PipeEnd p ReadEnd))
  /\ forall fd p e,
       inp <> Some p -> outp <> Some p ->
       t' !! fd = Some (PipeEnd p e) <-> t !! fd = Some (PipeEnd p e).

Definition at_std (io : option nat) (e : pend) (was : option fobj)
  : option fobj :=
  match io with
  | Some p => Some (PipeEnd p e)
  | None => was
  end.

(** A child that does what [blk] does from the state it was born with. *)
Definition behaves {A : Type} (w : world) (blk : prog unit) (c : proc A) : Prop :=
  exists o st,
    fate c = Ended o st
    /\ res (run w blk (who c) (born c)) = Ended o st
    /\ did c = trace (run w blk (who c) (born c)).

(** The stages of the pipeline, in the order [build] creates them, each with
    the value of [cur] it sees. *)
Definition plan (argv : list string) (pipes : list pipe_def) : list (prog unit) :=
  if decide (Z.of_nat (length argv) > 1) then
    [stage_printenv pipes 0; stage_grep argv pipes 1; stage_sort pipes 2;
     stage_pager pipes 3]
  else [stage_printenv pipes 0; stage_sort pipes 1; stage_pager pipes 2].

(** The pipe ends the parent holds when it creates each stage, and those it
    still holds when it starts to wait. *)
Definition born_open (argv : list string) : list (list (nat * pend)) :=
  if decide (Z.of_nat (length argv) > 1) then
    [[(0, ReadEnd); (0, WriteEnd); (1, ReadEnd); (1, WriteEnd);
      (2, ReadEnd); (2, WriteEnd)];
     [(0, ReadEnd); (0, WriteEnd); (1, ReadEnd); (1, WriteEnd);
      (2, ReadEnd); (2, WriteEnd)];
     [(1, ReadEnd); (1, WriteEnd); (2, ReadEnd); (2, WriteEnd)];
     [(2, ReadEnd); (2, WriteEnd)]]%nat
  else
    [[(0, ReadEnd); (0, WriteEnd); (1, ReadEnd); (1, WriteEnd);
      (2, ReadEnd); (2, WriteEnd)];
     [(0, ReadEnd); (0, WriteEnd); (1, ReadEnd); (1, WriteEnd);
      (2, ReadEnd); (2, WriteEnd)];
     [(1, ReadEnd); (1, WriteEnd); (2, ReadEnd); (2, WriteEnd)]]%nat.

Definition left_open (argv : list string) : list (nat * pend) :=
  if decide (Z.of_nat (length argv) > 1) then []
  else [(2, ReadEnd); (2, WriteEnd)]%nat.

(** The program is started with descriptors 0 and 1 open and, having
    created no pipe yet, holds no pipe end. *)
Definition fresh_start (st : pstate) : Prop :=
  std (fdt st) /\ npipes st = 0%nat
  /\ forall fd p e, fdt st !! fd <> Some (PipeEnd p e).

Definition ev_wait (r : positive * Z) : event := EvWait (Z.pos r.1) r.2.

(** A child that exited with status 0. *)
Definition clean (r : positive * Z) : Prop :=
  WIFEXITED r.2 = true /\ WEXITSTATUS r.2 = 0.

Definition prepend {A : Type} (tr : list event) (r : run_result A) : run_result A :=
  Run (res r) (tr ++ trace r) (spawned r).

Definition after_wait (st : pstate) : pstate :=
  PState (fdt st) (S (clock st)) (npipes st) (S (nwaits st)).

(** The programs a stage process may turn into. *)
Definition stage_targets (w : world) (argv : list string)
  : list (string * list string) :=
  [("printenv", ["printenv"]); ("grep", argv); ("sort", ["sort"])]
  ++ pager_candidates (environ w "PAGER").

(** A [dup2] or [close] that came back with an error. *)
Definition wiring_failed (e : event) : bool :=
  match e with
  | EvDup2 _ _ ret | EvClose _ ret => bool_decide (ret = -1)
  | _ => false
  end.

(** The position of the last stage among the children. *)
Definition sink_index (argv : list string) : nat :=
  if decide (1 < length argv)%nat then 3 else 2.

(** Test world: the standard streams are open and the listed calls, each
    named by process and clock, fail. *)
Definition faulty (bad : list (list nat * nat)) (env : string -> option string)
    (rs : list (positive * Z)) : world :=
  World [0; 1; 2] (fun me n => bool_decide ((me, n) ∈ bad))
    (fun _ n => Pos.of_nat (100 + n)) env rs.

Definition no_env : string -> option string := fun _ => None.

Definition pager_is (v : string) : string -> option string :=
  fun name => if decide (name = "PAGER") then Some v else None.

(** The exit status of a process that called [exit]. *)
Definition exit_status {A : Type} (r : result A) : option Z :=
  match r with
  | Ended (Exited status) _ => Some status
  | _ => None
  end.

(** [printf] writes to the standard output, [perror] to the standard
    error. *)
Inductive stream := Stdout | Stderr.

Definition writes_to (e : event) : option stream :=
  match e with
  | EvPrintf _ => Some Stdout
  | EvPerror _ => Some Stderr
  | _ => None
  end.

Definition output_on (s : stream) (tr : list event) : list event :=
  List.filter
    (fun e => match writes_to e, s with
              | Some Stdout, Stdout | Some Stderr, Stderr => true
              | _, _ => false
              end) tr.

Definition printfs (tr : list event) : list event := List.filter is_printf tr.

(** The pipe each stage reads from and the pipe it writes to, by position. *)
Definition wiring (argv : list string) : list (option nat * option nat) :=
  if decide (Z.of_nat (length argv) > 1) then
    [(None, Some 0); (Some 0, Some 1); (Some 1, Some 2); (Some 2, None)]%nat
  else [(None, Some 0); (Some 0, Some 1); (Some 1, None)]%nat.

(** The table of a process that turned into a program. *)
Definition exec_table {A : Type} (c : proc A) : option (gmap Z fobj) :=
  match fate c with
  | Ended (Became _ _) st => Some (fdt st)
  | _ => None
  end.

(** The table of the parent when it starts to wait. *)
Definition wait_table (w : world) (argv : list string) : option (gmap Z fobj) :=
  match res (run w (build argv) [] (boot w)) with
  | Returned _ st => Some (fdt st)
  | Ended _ _ => None
  end.

(** What a table has at the descriptors [fds]. *)
Definition held (fds : list Z) (t : gmap Z fobj) : list (option fobj) :=
  (fun fd => t !! fd) <$> fds.

(** ** The vocabulary of the further properties *)

(** No call fails for a reason outside the program. *)
Definition undisturbed (w : world) : Prop := forall me n, fault w me n = false.

(** The programs of the pipeline, in order, with PAGER as the environment
    has it. *)
Definition pipeline (argv : list string) (pager : option string)
  : list (string * list string) :=
  [("printenv", ["printenv"])]
  ++ (if decide (1 < length argv)%nat then [("grep", argv)] else [])
  ++ [("sort", ["sort"]);
      match pager with
      | Some pager => (pager, [pager])
      | None => ("less", ["less"])
      end].

(** The exit status of the first child, in the order reaped, that exited
    with another status than 0; 0 when there is none. *)
Fixpoint first_exit_code (rs : list (positive * Z)) : Z :=
  match rs with
  | [] => 0
  | r :: rs' =>
      if WIFEXITED r.2 && negb (WEXITSTATUS r.2 =? 0) then WEXITSTATUS r.2
      else first_exit_code rs'
  end.

(** The messages about the children reaped: every child killed by a signal
    up to the first child that exited with another status than 0, and that
    child. *)
Fixpoint diagnostics (rs : list (positive * Z)) : list event :=
  match rs with
  | [] => []
  | r :: rs' =>
      if WIFEXITED r.2 then
        if WEXITSTATUS r.2 =? 0 then diagnostics rs'
        else [EvPrintf (exit_diag (WEXITSTATUS r.2) (Z.pos r.1))]
      else if WIFSIGNALED r.2 then
        EvPrintf (signal_diag (WTERMSIG r.2) (Z.pos r.1)) :: diagnostics rs'
      else diagnostics rs'
  end.

Definition is_wait (e : event) : bool :=
  match e with
  | EvWait _ _ => true
  | _ => false
  end.

Definition is_fork (e : event) : bool :=
  match e with
  | EvFork _ => true
  | _ => false
  end.

Definition is_pipe (e : event) : bool :=
  match e with
  | EvPipe _ _ => true
  | _ => false
  end.

(** The descriptors the successful [pipe] calls of a trace returned. *)
Definition pipe_fds (tr : list event) : list Z :=
  flat_map
    (fun e => match e with
              | EvPipe ret fds => if ret =? 0 then [fds.1; fds.2] else []
              | _ => []
              end) tr.

(** What the parent does: it creates pipes and processes, closes
    descriptors of its own pipes, waits and prints; it never redirects a
    descriptor, looks the environment up or turns into another program. *)
Definition parent_call (fds : list Z) (e : event) : Prop :=
  match e with
  | EvDup2 _ _ _ | EvExeclp _ _ _ | EvExecvp _ _ _ | EvGetenv _ _ => False
  | EvClose fd _ => fd ∈ fds
  | _ => True
  end.

(** What the wait loop and the final [exit] do. *)
Definition reaper_call (e : event) : bool :=
  match e with
  | EvWait _ _ | EvPrintf _ | EvPerror _ | EvExit _ => true
  | _ => false
  end.

(** A failed call of the parent other than [wait]. *)
Definition build_failed (e : event) : bool := failed e && negb (is_wait e).

Definition is_getenv (e : event) : bool :=
  match e with
  | EvGetenv _ _ => true
  | _ => false
  end.

(** A stage with a failed [dup2] or [close] gives up with a message and
    status 1, having tried no [exec] and not looked PAGER up. *)
Definition stops (r : run_result unit) : Prop :=
  existsb wiring_failed (trace r) = true ->
  exists st,
    res r = Ended (Exited 1) st
    /\ reported (trace r) = true
    /\ existsb is_exec (trace r) = false
    /\ consults_pager (trace r) = false.

(** What each stage, by position, may turn into. *)
Definition candidates (argv : list string) (pager : option string)
  : list (list (string * list string)) :=
  [[("printenv", ["printenv"])]]
  ++ (if decide (1 < length argv)%nat then [[("grep", argv)]] else [])
  ++ [[("sort", ["sort"])]; pager_candidates pager].

(** Test world: started with the standard output closed; no call fails for
    an outside reason. *)
Definition no_stdout : world :=
  World [0; 2] (fun _ _ => false) (fun _ n => Pos.of_nat (100 + n)) no_env [].

(** ** Properties of sequencing *)

Section Sequencing.
Context (w : world).

Lemma continue_proc_eq {A B : Type} (h : A -> sem B) me pid st0 r tr :
  continue_proc h (Proc me pid st0 r tr) =
  spawned (continue h me r)
  ++ [Proc me pid st0 (res (continue h me r)) (tr ++ trace (continue h me r))].
Proof. reflexivity. Qed.

Lemma run_bind {A B : Type} (p : prog A) (f : A -> prog B) me st :
  run w (p ≫= f) me st = then_run (fun a => run w (f a)) me (run w p me st).
Proof.
  revert me st. induction p as [a | R c k IH]; intros me st.
  - cbn. unfold then_run. cbn. destruct (run w (f a) me st). reflexivity.
  - change (run w (Vis c k ≫= f)) with (sys w c (fun r => run w (k r ≫= f))).
    change (run w (Vis c k)) with (sys w c (fun r => run w (k r))).
    destruct c; cbn -[then_run]; rewrite ?IH; try reflexivity.
    + destruct (fault w me (clock st)); rewrite ?IH; reflexivity.
    + destruct (fault w me (clock st)); rewrite ?IH; try reflexivity.
      unfold then_run; cbn -[continue_proc continue]. f_equal.
      rewrite flat_map_app. cbn [flat_map].
      rewrite continue_proc_eq, <- !app_assoc. reflexivity.
    + destruct (fault w me (clock st)); rewrite ?IH; reflexivity.
    + destruct (fault w me (clock st)); rewrite ?IH; reflexivity.
    + destruct (reaped w !! nwaits st) as [[pid status]|]; rewrite ?IH; reflexivity.
Qed.
End Sequencing.

(** ** Descriptor tables *)

Section Descriptors.
Implicit Types (t : gmap Z fobj) (fd : Z).

Lemma lowest_from_free t (t' : gmap Z fobj) fuel n :
  (size t' <= fuel)%nat ->
  (forall k, n <= k -> is_Some (t !! k) -> is_Some (t' !! k)) ->
  t !! lowest_from t fuel n = None /\ n <= lowest_from t fuel n.
Proof.
  revert t' n. induction fuel as [|fuel IH]; intros t' n Hsize Hcover; cbn.
  - split; [|lia].
    assert (t' = ∅) as -> by (apply map_size_empty_inv; lia).
    destruct (t !! n) as [o|] eqn:E; [|reflexivity].
    destruct (Hcover n) as [o' Ho']; [lia|eauto|].
    rewrite lookup_empty in Ho'. discriminate.
  - destruct (t !! n) as [o|] eqn:E; [|split; [assumption|lia]].
    destruct (IH (delete n t') (n + 1)) as [Hfree Hle].
    + rewrite map_size_delete_Some by (apply Hcover; [lia|eauto]). lia.
    + intros k Hk Hin. rewrite lookup_delete_ne by lia. apply Hcover; [lia|done].
    + split; [assumption|lia].
Qed.

Lemma lowest_free_spec t : t !! lowest_free t = None /\ 0 <= lowest_free t.
Proof. apply (lowest_from_free t t); [reflexivity|auto]. Qed.

Lemma do_pipe_spec np t p t' :
  do_pipe np t = (p, t') ->
  t' = <[p.2 := PipeEnd np WriteEnd]> (<[p.1 := PipeEnd np ReadEnd]> t)
  /\ t !! p.1 = None /\ t !! p.2 = None /\ p.1 <> p.2.
Proof.
  unfold do_pipe. intros [= <- <-]. cbn.
  destruct (lowest_free_spec t) as [H1 _].
  destruct (lowest_free_spec (<[lowest_free t := PipeEnd np ReadEnd]> t))
    as [H2 _].
  rewrite lookup_insert in H2. case_decide as Hd; [done|].
  repeat split; assumption.
Qed.

Lemma do_dup2_ok t oldfd newfd o :
  t !! oldfd = Some o -> 0 <= newfd -> oldfd <> newfd ->
  do_dup2 t oldfd newfd = (newfd, <[newfd := o]> t).
Proof.
  intros Ho Hn Hne. unfold do_dup2. rewrite Ho.
  rewrite decide_False by lia. rewrite decide_False by assumption. reflexivity.
Qed.

Lemma do_close_inv t fd ret t' :
  do_close t fd = (ret, t') -> ret <> -1 -> is_Some (t !! fd) /\ t' = delete fd t.
Proof.
  unfold do_close. destruct (t !! fd) eqn:E; intros [= <- <-] Hret;
    [eauto|contradiction].
Qed.

Lemma guarded_inv w me st r ret t :
  guarded w me st r = (ret, t) -> ret <> -1 -> r = (ret, t).
Proof.
  unfold guarded. destruct (fault w me (clock st)); [|done].
  intros [= <- <-] Hret. contradiction.
Qed.

Lemma boot_lookup w fd o : fdt (boot w) !! fd = Some o -> o = Inherited fd.
Proof.
  cbn. intros H%elem_of_list_to_map_2.
  apply list_elem_of_fmap in H as (fd' & [= -> ->] & _). reflexivity.
Qed.

Lemma boot_open w fd :
  fd ∈ open_at_start w -> fdt (boot w) !! fd = Some (Inherited fd).
Proof.
  intros Hin. cbn. apply elem_of_list_to_map_1'.
  - intros y Hy. apply list_elem_of_fmap in Hy as (fd' & [= -> ->] & _).
    reflexivity.
  - apply list_elem_of_fmap. eauto.
Qed.
End Descriptors.

(** ** Stage processes *)

Lemma run_check {A : Type} w r s (f : unit -> prog A) me st :
  run w (check_sys_return r s ≫= f) me st =
  if decide (-1 = r) then
    Run (Ended (Exited 1) (tick st (fdt st))) [EvPerror s; EvExit 1] []
  else run w (f tt) me st.
Proof. unfold check_sys_return. destruct (decide (-1 = r)); reflexivity. Qed.

Lemma run_check_last w r s me st :
  run w (check_sys_return r s) me st =
  if decide (-1 = r) then
    Run (Ended (Exited 1) (tick st (fdt st))) [EvPerror s; EvExit 1] []
  else Run (Returned tt st) [] [].
Proof. unfold check_sys_return. destruct (decide (-1 = r)); reflexivity. Qed.

Ltac sym_cbn :=
  cbn -[guarded do_dup2 do_close do_pipe fd_at lowest_free check_sys_return
        decide].

Ltac sym_step :=
  sym_cbn;
  match goal with
  | |- context [guarded ?w ?me ?st ?r] =>
      let ret := fresh "ret" in
      let t := fresh "t" in
      let E := fresh "E" in
      destruct (guarded w me st r) as [ret t] eqn:E; cbn [fst snd] in *
  | |- context [run ?w (check_sys_return ?r ?s ≫= ?f) ?me ?st] =>
      rewrite (run_check w r s f me st); destruct (decide (-1 = r))
  | |- context [run ?w (check_sys_return ?r ?s) ?me ?st] =>
      rewrite (run_check_last w r s me st); destruct (decide (-1 = r))
  | |- context [environ ?w ?n] => destruct (environ w n) eqn:?
  | |- context [fault ?w ?me ?c] => destruct (fault w me c) eqn:?
  end.

Ltac stage_done :=
  split; sym_cbn;
  [ reflexivity
  | first [ left; eexists; split; [reflexivity|reflexivity]
          | right; do 3 eexists; split; [reflexivity|set_solver] ]
  | reflexivity ].

Ltac split_trace H :=
  repeat match type of H with
    | _ = ?pre ++ _ =>
        is_var pre; destruct pre as [|? pre]; cbn in H;
        [try discriminate H | first [discriminate H | injection H as <- H]]
    end.

Ltac announces_done :=
  sym_cbn;
  let pre := fresh "pre" in
  let v := fresh "v" in
  let post := fresh "post" in
  let H := fresh "H" in
  intros pre v post H; split_trace H;
  injection H as <- <-; split; first [reflexivity | eauto].

Section Stages.
Context (w : world).

Lemma stage_printenv_ends pipes cur me st :
  stage_ends [("printenv", ["printenv"])]
    (run w (stage_printenv pipes cur) me st).
Proof. unfold stage_printenv. repeat sym_step; stage_done. Qed.

Lemma stage_grep_ends argv pipes cur me st :
  stage_ends [("grep", argv)] (run w (stage_grep argv pipes cur) me st).
Proof. unfold stage_grep. repeat sym_step; stage_done. Qed.

Lemma stage_sort_ends pipes cur me st :
  stage_ends [("sort", ["sort"])] (run w (stage_sort pipes cur) me st).
Proof. unfold stage_sort. repeat sym_step; stage_done. Qed.

Lemma stage_pager_ends pipes cur me st :
  stage_ends (pager_candidates (environ w "PAGER"))
    (run w (stage_pager pipes cur) me st).
Proof.
  unfold stage_pager, check_pager, pager_candidates.
  repeat sym_step; stage_done.
Qed.

Lemma stage_printenv_execvp pipes cur me st :
  Forall execvp_free (trace (run w (stage_printenv pipes cur) me st)).
Proof. unfold stage_printenv. repeat sym_step; sym_cbn; repeat constructor. Qed.

Lemma stage_grep_execvp argv pipes cur me st :
  Forall (execvp_as "grep" argv)
    (trace (run w (stage_grep argv pipes cur) me st)).
Proof. unfold stage_grep. repeat sym_step; sym_cbn; repeat constructor. Qed.

Lemma stage_sort_execvp pipes cur me st :
  Forall execvp_free (trace (run w (stage_sort pipes cur) me st)).
Proof. unfold stage_sort. repeat sym_step; sym_cbn; repeat constructor. Qed.

Lemma stage_pager_execvp pipes cur me st :
  Forall execvp_free (trace (run w (stage_pager pipes cur) me st)).
Proof.
  unfold stage_pager, check_pager.
  repeat sym_step; sym_cbn; repeat constructor.
Qed.

Lemma stage_printenv_announces pipes cur me st :
  announces (trace (run w (stage_printenv pipes cur) me st)).
Proof. unfold stage_printenv. repeat sym_step; announces_done. Qed.

Lemma stage_grep_announces argv pipes cur me st :
  announces (trace (run w (stage_grep argv pipes cur) me st)).
Proof. unfold stage_grep. repeat sym_step; announces_done. Qed.

Lemma stage_sort_announces pipes cur me st :
  announces (trace (run w (stage_sort pipes cur) me st)).
Proof. unfold stage_sort. repeat sym_step; announces_done. Qed.

Lemma stage_pager_announces pipes cur me st :
  announces (trace (run w (stage_pager pipes cur) me st)).
Proof.
  unfold stage_pager, check_pager. repeat sym_step; announces_done.
Qed.
End Stages.

Ltac falls_done :=
  sym_cbn; intros _ ? ? [= <- <-];
  first
    [ right; repeat split; reflexivity
    | left; exists 0%nat; do 2 eexists; repeat split; reflexivity
    | left; exists 1%nat; do 2 eexists; repeat split; reflexivity
    | left; exists 2%nat; do 2 eexists; repeat split; reflexivity ].

Section Sink.
Context (w : world).

Lemma stage_printenv_no_pager pipes cur me st :
  consults_pager (trace (run w (stage_printenv pipes cur) me st)) = false.
Proof. unfold stage_printenv. repeat sym_step; reflexivity. Qed.

Lemma stage_grep_no_pager argv pipes cur me st :
  consults_pager (trace (run w (stage_grep argv pipes cur) me st)) = false.
Proof. unfold stage_grep. repeat sym_step; reflexivity. Qed.

Lemma stage_sort_no_pager pipes cur me st :
  consults_pager (trace (run w (stage_sort pipes cur) me st)) = false.
Proof. unfold stage_sort. repeat sym_step; reflexivity. Qed.

Lemma stage_pager_falls pipes cur me st :
  let r := run w (stage_pager pipes cur) me st in
  consults_pager (trace r) = true ->
  forall o st', res r = Ended o st' ->
  falls_through (pager_candidates (environ w "PAGER")) o (trace r).
Proof.
  cbv zeta. unfold stage_pager, check_pager, pager_candidates.
  repeat sym_step; try (sym_cbn; discriminate); falls_done.
Qed.
End Sink.

(** ** Which pipe ends a table holds *)

Lemma elem_of_without x y open : y ∈ without x open <-> y ∈ open /\ y <> x.
Proof.
  unfold without. rewrite !list_elem_of_In, List.filter_In.
  rewrite negb_true_iff, bool_decide_eq_false. reflexivity.
Qed.

Section Layout.
Implicit Types (t : gmap Z fobj) (pipes : list pipe_def).

Lemma fd_at_app_l pipes p q s :
  (q < length pipes)%nat -> fd_at (pipes ++ [p]) q s = fd_at pipes q s.
Proof. intros H. unfold fd_at. rewrite lookup_total_app_l by exact H. done. Qed.

Lemma fd_at_app_r pipes p s : fd_at (pipes ++ [p]) (length pipes) s = side_of p s.
Proof.
  unfold fd_at. rewrite lookup_total_app_r by lia. rewrite Nat.sub_diag. done.
Qed.

Lemma layout_held pipes open t p e :
  layout pipes open t -> (p, e) ∈ open ->
  t !! fd_at pipes p (side e) = Some (PipeEnd p e).
Proof.
  intros [Hne Hl] Hin. destruct (Hne p e Hin). apply Hl; auto.
Qed.

(** Line 97: a new pipe adds its two ends and leaves 0 and 1 alone. *)
Lemma layout_pipe pipes open t p t' :
  layout pipes open t ->
  is_Some (t !! 0) -> is_Some (t !! 1) ->
  (forall q e, (q, e) ∈ open -> (q < length pipes)%nat) ->
  do_pipe (length pipes) t = (p, t') ->
  layout (pipes ++ [p])
    (open ++ [(length pipes, ReadEnd); (length pipes, WriteEnd)]) t'
  /\ t' !! 0 = t !! 0 /\ t' !! 1 = t !! 1.
Proof.
  intros Hlay [o0 H0] [o1 H1] Hlt Hp.
  pose proof Hlay as [Hne Hl].
  apply do_pipe_spec in Hp as (-> & Hr & Hw & Hrw).
  assert (Hends : forall q e,
             (q, e) ∈ open ++ [(length pipes, ReadEnd); (length pipes, WriteEnd)] ->
             ((q, e) ∈ open /\ fd_at (pipes ++ [p]) q (side e)
                               = fd_at pipes q (side e))
             \/ (q = length pipes /\ e = ReadEnd
                 /\ fd_at (pipes ++ [p]) q (side e) = p.1)
             \/ (q = length pipes /\ e = WriteEnd
                 /\ fd_at (pipes ++ [p]) q (side e) = p.2)).
  { intros q e [Hin|Hin]%elem_of_app.
    - left. split; [exact Hin|]. apply fd_at_app_l. eapply Hlt, Hin.
    - apply elem_of_cons in Hin as [[= -> ->]|Hin].
      + right. left. repeat split. apply fd_at_app_r.
      + apply list_elem_of_singleton in Hin as [= -> ->].
        right. right. repeat split. apply fd_at_app_r. }
  split; [split|].
  - intros q e [[Hin ->] | [(-> & -> & ->) | (-> & -> & ->)]]%Hends.
    + apply Hne, Hin.
    + split; congruence.
    + split; congruence.
  - intros fd q e Hfd0 Hfd1. rewrite !lookup_insert. split.
    + case_decide as H2; [|case_decide as H3].
      * intros [= <- <-]. subst fd. split.
        -- apply elem_of_app. right. rewrite !elem_of_cons. auto.
        -- symmetry. apply fd_at_app_r.
      * intros [= <- <-]. subst fd. split.
        -- apply elem_of_app. right. rewrite !elem_of_cons. auto.
        -- symmetry. apply fd_at_app_r.
      * intros [Hin ->]%Hl; [|assumption..]. split.
        -- apply elem_of_app. left. exact Hin.
        -- symmetry. apply fd_at_app_l. eapply Hlt, Hin.
    + intros [[[Hin Heq] | [(-> & -> & Heq) | (-> & -> & Heq)]]%Hends ->];
        rewrite Heq.
      * pose proof (layout_held _ _ _ _ _ Hlay Hin) as Ho.
        rewrite decide_False by congruence.
        rewrite decide_False by congruence. exact Ho.
      * rewrite decide_False by congruence.
        rewrite decide_True by reflexivity. reflexivity.
      * rewrite decide_True by reflexivity. reflexivity.
  - rewrite !lookup_insert.
    repeat (rewrite decide_False by congruence). auto.
Qed.

(** Closing the descriptor of an end drops that end and leaves 0 and 1
    alone. *)
Lemma layout_close pipes open t p e :
  layout pipes open t -> (p, e) ∈ open ->
  layout pipes (without (p, e) open) (delete (fd_at pipes p (side e)) t)
  /\ delete (fd_at pipes p (side e)) t !! 0 = t !! 0
  /\ delete (fd_at pipes p (side e)) t !! 1 = t !! 1.
Proof.
  intros Hlay Hin. pose proof Hlay as [Hne Hl].
  pose proof (layout_held _ _ _ _ _ Hlay Hin) as Hpe.
  destruct (Hne p e Hin) as [Hp0 Hp1].
  split; [split|].
  - intros q e' [Hq _]%elem_of_without. apply Hne, Hq.
  - intros fd q e' Hfd0 Hfd1. rewrite lookup_delete, elem_of_without.
    case_decide as Hd.
    + split; [discriminate|]. intros [[Hq Hneq] ->]. exfalso. apply Hneq.
      pose proof (layout_held _ _ _ _ _ Hlay Hq) as Hqe. congruence.
    + rewrite (Hl fd q e' Hfd0 Hfd1). split.
      * intros [Hq ->]. repeat split; [assumption|]. congruence.
      * tauto.
  - rewrite !lookup_delete. rewrite !decide_False by assumption. auto.
Qed.

(** Redirecting descriptor 0 or 1 changes nothing elsewhere. *)
Lemma layout_redirect pipes open t newfd o :
  layout pipes open t -> newfd = 0 \/ newfd = 1 ->
  layout pipes open (<[newfd := o]> t).
Proof.
  intros [Hne Hl] Hnew. split; [exact Hne|].
  intros fd p e Hfd0 Hfd1. rewrite lookup_insert_ne by (destruct Hnew; congruence).
  apply Hl; assumption.
Qed.

End Layout.

(** ** What a stage holds when it turns into its program *)

Lemma tidy_intro pipes open open' inp outp t t' :
  layout pipes open t -> std t ->
  layout pipes open' t' ->
  t' !! 0 = at_std inp ReadEnd (t !! 0) ->
  t' !! 1 = at_std outp WriteEnd (t !! 1) ->
  (forall p, inp = Some p -> outp <> Some p /\ (p, WriteEnd) ∉ open') ->
  (forall p, outp = Some p -> (p, ReadEnd) ∉ open') ->
  (forall p e, inp <> Some p -> outp <> Some p ->
     (p, e) ∈ open' <-> (p, e) ∈ open) ->
  tidy inp outp t t'.
Proof.
  intros [_ Hl] [Hs0 Hs1] [_ Hl'] H0 H1 Hin Hout Hrest.
  rewrite Hs0 in H0. rewrite Hs1 in H1.
  assert (Hcase : forall fd, fd = 0 \/ fd = 1 \/ (fd <> 0 /\ fd <> 1)) by lia.
  split; [|split].
  - intros p ->. destruct (Hin p eq_refl) as [Hne Hnot]. split; [exact H0|].
    intros fd. destruct (Hcase fd) as [-> | [-> | [Hf0 Hf1]]].
    + rewrite H0. discriminate.
    + rewrite H1. destruct outp as [q|]; cbn; [|discriminate].
      intros [= Heq]. apply Hne. congruence.
    + rewrite (Hl' fd p WriteEnd Hf0 Hf1). tauto.
  - intros p ->. specialize (Hout p eq_refl). split; [exact H1|].
    intros fd. destruct (Hcase fd) as [-> | [-> | [Hf0 Hf1]]].
    + rewrite H0. destruct inp as [q|]; cbn; [|discriminate].
      intros [= ->]. destruct (Hin p eq_refl) as [Hc _]. apply Hc. reflexivity.
    + rewrite H1. discriminate.
    + rewrite (Hl' fd p ReadEnd Hf0 Hf1). tauto.
  - intros fd p e Hi Ho. destruct (Hcase fd) as [-> | [-> | [Hf0 Hf1]]].
    + rewrite H0, Hs0. split; [|discriminate].
      destruct inp as [q|]; cbn; [|discriminate].
      intros [= Heq _]. exfalso. apply Hi. congruence.
    + rewrite H1, Hs1. split; [|discriminate].
      destruct outp as [q|]; cbn; [|discriminate].
      intros [= Heq _]. exfalso. apply Ho. congruence.
    + rewrite (Hl' fd p e Hf0 Hf1), (Hl fd p e Hf0 Hf1), (Hrest p e Hi Ho).
      reflexivity.
Qed.

Section Wiring.
Context (w : world) (pipes : list pipe_def) (open : list (nat * pend)).
Implicit Types (t : gmap Z fobj) (s : pstate).

Lemma closed t fd me s ret t' :
  guarded w me s (do_close t fd) = (ret, t') -> -1 <> ret -> t' = delete fd t.
Proof.
  intros E H. apply guarded_inv in E; [|congruence].
  apply do_close_inv in E as [_ ->]; [reflexivity|congruence].
Qed.

Lemma redirected t oldfd newfd o me s ret t' :
  guarded w me s (do_dup2 t oldfd newfd) = (ret, t') -> -1 <> ret ->
  t !! oldfd = Some o -> 0 <= newfd -> oldfd <> newfd ->
  t' = <[newfd := o]> t.
Proof.
  intros E H Ho Hn Hne. apply guarded_inv in E; [|congruence].
  rewrite (do_dup2_ok _ _ _ _ Ho Hn Hne) in E. congruence.
Qed.

(** Lines 146-156 and 188-198: both standard streams onto pipes. *)
Lemma wire_both t i o me s1 s2 s3 s4 r1 r2 r3 r4 t1 t2 t3 t4 :
  layout pipes open t -> std t ->
  (i, ReadEnd) ∈ open -> (i, WriteEnd) ∈ open ->
  (o, ReadEnd) ∈ open -> (o, WriteEnd) ∈ open ->
  i <> o ->
  guarded w me s1 (do_dup2 t (fd_at pipes i PIPE_IN) STDIN_FILENO) = (r1, t1) ->
  -1 <> r1 ->
  guarded w me s2 (do_close t1 (fd_at pipes i PIPE_OUT)) = (r2, t2) ->
  -1 <> r2 ->
  guarded w me s3 (do_dup2 t2 (fd_at pipes o PIPE_OUT) STDOUT_FILENO) = (r3, t3) ->
  -1 <> r3 ->
  guarded w me s4 (do_close t3 (fd_at pipes o PIPE_IN)) = (r4, t4) ->
  -1 <> r4 ->
  tidy (Some i) (Some o) t t4.
Proof.
  intros Hlay Hstd HiR HiW HoR HoW Hio E1 H1 E2 H2 E3 H3 E4 H4.
  pose proof Hlay as [Hne _].
  apply (redirected _ _ _ (PipeEnd i ReadEnd)) in E1;
    [|assumption|apply (layout_held _ _ _ _ _ Hlay HiR)|done
     |apply (Hne _ _ HiR)].
  subst t1.
  pose proof (layout_redirect _ _ _ 0 (PipeEnd i ReadEnd) Hlay (or_introl eq_refl))
    as L1.
  apply closed in E2; [|assumption]. subst t2.
  destruct (layout_close _ _ _ i WriteEnd L1 HiW) as (L2 & L20 & L21).
  assert (HoW' : (o, WriteEnd) ∈ without (i, WriteEnd) open)
    by (apply elem_of_without; split; [assumption|congruence]).
  assert (HoR' : (o, ReadEnd) ∈ without (i, WriteEnd) open)
    by (apply elem_of_without; split; [assumption|congruence]).
  apply (redirected _ _ _ (PipeEnd o WriteEnd)) in E3;
    [|assumption|apply (layout_held _ _ _ _ _ L2 HoW')|done
     |apply (proj1 L2 _ _ HoW')].
  subst t3.
  pose proof (layout_redirect _ _ _ 1 (PipeEnd o WriteEnd) L2 (or_intror eq_refl))
    as L3.
  apply closed in E4; [|assumption]. subst t4.
  destruct (layout_close _ _ _ o ReadEnd L3 HoR') as (L4 & L40 & L41).
  cbn [side] in *.
  apply (tidy_intro pipes open _ _ _ _ _ Hlay Hstd L4).
  - rewrite L40, lookup_insert_ne by done. rewrite L20.
    apply lookup_insert_eq.
  - rewrite L41. apply lookup_insert_eq.
  - intros p [= <-]. split; [congruence|].
    rewrite !elem_of_without. intros [[_ H] _]. apply H. reflexivity.
  - intros p [= <-]. rewrite !elem_of_without. intros [_ H]. apply H.
    reflexivity.
  - intros p e Hp1 Hp2. rewrite !elem_of_without. split; [tauto|].
    intros Hin. repeat split; [assumption|congruence..].
Qed.

(** Lines 113-120: standard output onto a pipe, both descriptors of the
    pipe closed. *)
Lemma wire_out t o me s1 s2 s3 r1 r2 r3 t1 t2 t3 :
  layout pipes open t -> std t ->
  (o, ReadEnd) ∈ open -> (o, WriteEnd) ∈ open ->
  guarded w me s1 (do_dup2 t (fd_at pipes o PIPE_OUT) STDOUT_FILENO) = (r1, t1) ->
  -1 <> r1 ->
  guarded w me s2 (do_close t1 (fd_at pipes o PIPE_IN)) = (r2, t2) ->
  -1 <> r2 ->
  guarded w me s3 (do_close t2 (fd_at pipes o PIPE_OUT)) = (r3, t3) ->
  -1 <> r3 ->
  tidy None (Some o) t t3.
Proof.
  intros Hlay Hstd HoR HoW E1 H1 E2 H2 E3 H3.
  pose proof Hlay as [Hne _].
  apply (redirected _ _ _ (PipeEnd o WriteEnd)) in E1;
    [|assumption|apply (layout_held _ _ _ _ _ Hlay HoW)|done
     |apply (Hne _ _ HoW)].
  subst t1.
  pose proof (layout_redirect _ _ _ 1 (PipeEnd o WriteEnd) Hlay (or_intror eq_refl))
    as L1.
  apply closed in E2; [|assumption]. subst t2.
  destruct (layout_close _ _ _ o ReadEnd L1 HoR) as (L2 & L20 & L21).
  assert (HoW' : (o, WriteEnd) ∈ without (o, ReadEnd) open)
    by (apply elem_of_without; split; [assumption|congruence]).
  apply closed in E3; [|assumption]. subst t3.
  destruct (layout_close _ _ _ o WriteEnd L2 HoW') as (L3 & L30 & L31).
  cbn [side] in *.
  apply (tidy_intro pipes open _ _ _ _ _ Hlay Hstd L3).
  - rewrite L30, L20. apply lookup_insert_ne. done.
  - rewrite L31, L21. apply lookup_insert_eq.
  - intros p [=].
  - intros p [= <-]. rewrite !elem_of_without. intros [[_ H] _]. apply H.
    reflexivity.
  - intros p e Hp1 Hp2. rewrite !elem_of_without. split; [tauto|].
    intros Hin. repeat split; [assumption|congruence..].
Qed.

(** Lines 235-238: standard input onto a pipe. *)
Lemma wire_in t i me s1 s2 r1 r2 t1 t2 :
  layout pipes open t -> std t ->
  (i, ReadEnd) ∈ open -> (i, WriteEnd) ∈ open ->
  guarded w me s1 (do_dup2 t (fd_at pipes i PIPE_IN) STDIN_FILENO) = (r1, t1) ->
  -1 <> r1 ->
  guarded w me s2 (do_close t1 (fd_at pipes i PIPE_OUT)) = (r2, t2) ->
  -1 <> r2 ->
  tidy (Some i) None t t2.
Proof.
  intros Hlay Hstd HiR HiW E1 H1 E2 H2.
  pose proof Hlay as [Hne _].
  apply (redirected _ _ _ (PipeEnd i ReadEnd)) in E1;
    [|assumption|apply (layout_held _ _ _ _ _ Hlay HiR)|done
     |apply (Hne _ _ HiR)].
  subst t1.
  pose proof (layout_redirect _ _ _ 0 (PipeEnd i ReadEnd) Hlay (or_introl eq_refl))
    as L1.
  apply closed in E2; [|assumption]. subst t2.
  destruct (layout_close _ _ _ i WriteEnd L1 HiW) as (L2 & L20 & L21).
  cbn [side] in *.
  apply (tidy_intro pipes open _ _ _ _ _ Hlay Hstd L2).
  - rewrite L20. apply lookup_insert_eq.
  - rewrite L21. apply lookup_insert_ne. done.
  - intros p [= <-]. split; [congruence|].
    rewrite !elem_of_without. intros [_ H]. apply H. reflexivity.
  - intros p [=].
  - intros p e Hp1 Hp2. rewrite !elem_of_without. split; [tauto|].
    intros Hin. repeat split; [assumption|congruence..].
Qed.
End Wiring.

Section StageTables.
Context (w : world).

Lemma stage_printenv_tidy pipes cur open me st f v st' :
  layout pipes open (fdt st) -> std (fdt st) ->
  (cur, ReadEnd) ∈ open -> (cur, WriteEnd) ∈ open ->
  res (run w (stage_printenv pipes cur) me st) = Ended (Became f v) st' ->
  tidy None (Some cur) (fdt st) (fdt st').
Proof.
  intros Hlay Hstd HoR HoW. unfold stage_printenv.
  repeat sym_step; sym_cbn; try discriminate.
  intros [= <- <- <-]. cbn [fdt]. eapply wire_out; eassumption.
Qed.

Lemma stage_grep_tidy argv pipes cur open me st f v st' :
  (1 <= cur)%nat ->
  layout pipes open (fdt st) -> std (fdt st) ->
  (cur - 1, ReadEnd)%nat ∈ open -> (cur - 1, WriteEnd)%nat ∈ open ->
  (cur, ReadEnd) ∈ open -> (cur, WriteEnd) ∈ open ->
  res (run w (stage_grep argv pipes cur) me st) = Ended (Became f v) st' ->
  tidy (Some (cur - 1)%nat) (Some cur) (fdt st) (fdt st').
Proof.
  intros Hcur Hlay Hstd HiR HiW HoR HoW. unfold stage_grep.
  repeat sym_step; sym_cbn; try discriminate.
  intros [= <- <- <-]. cbn [fdt].
  eapply (wire_both w pipes open (fdt st) (cur - 1) cur); try eassumption. lia.
Qed.

Lemma stage_sort_tidy pipes cur open me st f v st' :
  (1 <= cur)%nat ->
  layout pipes open (fdt st) -> std (fdt st) ->
  (cur - 1, ReadEnd)%nat ∈ open -> (cur - 1, WriteEnd)%nat ∈ open ->
  (cur, ReadEnd) ∈ open -> (cur, WriteEnd) ∈ open ->
  res (run w (stage_sort pipes cur) me st) = Ended (Became f v) st' ->
  tidy (Some (cur - 1)%nat) (Some cur) (fdt st) (fdt st').
Proof.
  intros Hcur Hlay Hstd HiR HiW HoR HoW. unfold stage_sort.
  repeat sym_step; sym_cbn; try discriminate.
  intros [= <- <- <-]. cbn [fdt].
  eapply (wire_both w pipes open (fdt st) (cur - 1) cur); try eassumption. lia.
Qed.

Lemma stage_pager_tidy pipes cur open me st f v st' :
  layout pipes open (fdt st) -> std (fdt st) ->
  (cur - 1, ReadEnd)%nat ∈ open -> (cur - 1, WriteEnd)%nat ∈ open ->
  res (run w (stage_pager pipes cur) me st) = Ended (Became f v) st' ->
  tidy (Some (cur - 1)%nat) None (fdt st) (fdt st').
Proof.
  intros Hlay Hstd HiR HiW. unfold stage_pager, check_pager.
  repeat sym_step; sym_cbn; try discriminate.
  all: intros [= <- <- <-]; cbn [fdt]; eapply wire_in; eassumption.
Qed.
End StageTables.

(** ** Creating the stages *)

Section Walking.
Context (w : world).

Lemma stage_outcome targets (r : run_result unit) :
  stage_ends targets r -> exists o st, res r = Ended o st /\ spawned r = [].
Proof.
  intros [Halone [(st & Hres & _) | (f & v & st & Hres & _)] _]; eauto.
Qed.

Lemma sys_ext {A R : Type} (c : call R) (k1 k2 : R -> sem A) :
  (forall r me st, k1 r me st = k2 r me st) ->
  forall me st, sys w c k1 me st = sys w c k2 me st.
Proof.
  intros H me st. destruct c; cbn; rewrite ?H; try reflexivity.
  destruct (reaped w !! nwaits st) as [[pid status]|]; rewrite ?H; reflexivity.
Qed.

Lemma run_assoc {A B C : Type} (p : prog A) (f : A -> prog B)
    (g : B -> prog C) me st :
  run w (bind (bind p f) g) me st
  = run w (bind p (fun x => bind (f x) g)) me st.
Proof.
  revert me st. induction p as [a | R c k IH]; intros me st; [reflexivity|].
  cbn. apply sys_ext. intros r me' st'. apply IH.
Qed.

(** A process that ends inside [p] never gets to [f]. *)
Lemma run_bind_ended {A B : Type} (p : prog A) (f : A -> prog B) me st o st1 :
  res (run w p me st) = Ended o st1 ->
  spawned (run w p me st) = [] ->
  run w (bind p f) me st = Run (Ended o st1) (trace (run w p me st)) [].
Proof.
  intros Hres Hsp. change (bind p f) with (p ≫= f).
  rewrite run_bind. unfold then_run. rewrite Hres, Hsp. cbn.
  rewrite app_nil_r. reflexivity.
Qed.

Lemma run_check' {A : Type} r s (f : unit -> prog A) me st :
  run w (bind (check_sys_return r s) f) me st =
  if decide (-1 = r) then
    Run (Ended (Exited 1) (tick st (fdt st))) [EvPerror s; EvExit 1] []
  else run w (f tt) me st.
Proof. apply run_check. Qed.

Lemma run_fork {A : Type} (k : Z -> prog A) me st :
  run w (bind fork k) me st =
  let st' := tick st (fdt st) in
  if fault w me (clock st) then step (EvFork (-1)) (run w (k (-1)) me st')
  else
    let pid := Z.pos (child_pid w me (clock st)) in
    let child := run w (k 0) (clock st :: me) st' in
    let parent := run w (k pid) me st' in
    Run (res parent) (EvFork pid :: trace parent)
      (spawned child
       ++ Proc (clock st :: me) pid st' (res child) (trace child)
       :: spawned parent).
Proof. reflexivity. Qed.
End Walking.

(** Walking through [build]: one call at a time, one path at a time. *)
Ltac walk_cbn :=
  cbn -[guarded do_dup2 do_close do_pipe fd_at lowest_free check_sys_return
        decide fork stage_printenv stage_grep stage_sort stage_pager reap];
  unfold mbind, prog_bind, mret, prog_ret.

Ltac walk_stage w blk f me st lem :=
  let o := fresh "o" in
  let st1 := fresh "st1" in
  let Hres := fresh "Hres" in
  let Hsp := fresh "Hsp" in
  destruct (stage_outcome _ _ (lem me st)) as (o & st1 & Hres & Hsp);
  rewrite (run_bind_ended w blk f me st o st1 Hres Hsp).

Ltac walk_step :=
  walk_cbn;
  match goal with
  | |- context [fault ?w ?me ?c] => destruct (fault w me c) eqn:?
  | |- context [run ?w (bind (stage_printenv ?pipes ?cur) ?f) ?me ?st] =>
      walk_stage w (stage_printenv pipes cur) f me st
        (stage_printenv_ends w pipes cur)
  | |- context [run ?w (bind (stage_grep ?argv ?pipes ?cur) ?f) ?me ?st] =>
      walk_stage w (stage_grep argv pipes cur) f me st
        (stage_grep_ends w argv pipes cur)
  | |- context [run ?w (bind (stage_sort ?pipes ?cur) ?f) ?me ?st] =>
      walk_stage w (stage_sort pipes cur) f me st (stage_sort_ends w pipes cur)
  | |- context [run ?w (bind (stage_pager ?pipes ?cur) ?f) ?me ?st] =>
      walk_stage w (stage_pager pipes cur) f me st (stage_pager_ends w pipes cur)
  | |- context [decide (0 = 0)] =>
      rewrite (decide_True (P := 0 = 0)) by reflexivity
  | |- context [decide (0 = Z.pos ?p)] =>
      rewrite (decide_False (P := 0 = Z.pos p)) by discriminate
  | |- context [decide (-1 = 0)] =>
      rewrite (decide_False (P := -1 = 0)) by discriminate
  | |- context [decide (-1 = Z.pos ?p)] =>
      rewrite (decide_False (P := -1 = Z.pos p)) by discriminate
  | |- context [decide (-1 = -1)] =>
      rewrite (decide_True (P := -1 = -1)) by reflexivity
  | |- context [guarded ?w ?me ?st ?r] =>
      let ret := fresh "ret" in
      let t := fresh "t" in
      let E := fresh "E" in
      destruct (guarded w me st r) as [ret t] eqn:E; cbn [fst snd] in *
  | |- context [do_pipe ?n ?t] =>
      let p := fresh "p" in
      let t' := fresh "t" in
      let E := fresh "E" in
      destruct (do_pipe n t) as [p t'] eqn:E; cbn [fst snd] in *
  | |- context [run ?w (bind (bind ?p ?f) ?g) ?me ?st] =>
      rewrite (run_assoc w p f g me st)
  | |- context [run ?w (bind (check_sys_return ?r ?s) ?f) ?me ?st] =>
      rewrite (run_check' w r s f me st)
  | |- context [run ?w (check_sys_return ?r ?s) ?me ?st] =>
      rewrite (run_check_last w r s me st)
  | |- context [run ?w (bind fork ?k) ?me ?st] =>
      rewrite (run_fork w k me st); cbv zeta
  | |- context [decide (-1 = ?r)] =>
      let H := fresh "H" in destruct (decide (-1 = r)) as [H|H]
  end.

(** [build] with the test of line 85 decided. *)
Ltac walk_build :=
  unfold build; cbv zeta;
  match goal with
  | |- context [decide (Z.of_nat (length ?argv) > 1)] =>
      destruct (decide (Z.of_nat (length argv) > 1))
  end;
  match goal with
  | |- context [decide (?grep ≠ 0)] =>
      let H := fresh "H" in
      destruct (decide (grep ≠ 0)) as [H|H]; cbn in H;
      try (exfalso; first [congruence | apply H; discriminate])
  end;
  let Q := fresh "Q" in
  match goal with
  | |- context [run ?w ?p ?me ?st] =>
      pattern (run w p me st);
      match goal with |- ?P _ => set (Q := P) end
  end;
  repeat walk_step; walk_cbn; unfold Q; clear Q; cbv beta; walk_cbn.

Lemma layout_fresh st : fresh_start st -> layout [] [] (fdt st).
Proof.
  intros (_ & _ & Hno). split.
  - intros p e Hin. apply elem_of_nil in Hin. contradiction.
  - intros fd p e _ _. split; [intros H; destruct (Hno _ _ _ H)|].
    intros [Hin _]. apply elem_of_nil in Hin. contradiction.
Qed.

Ltac behaves_done :=
  repeat first
    [ apply Forall2_nil_2
    | apply Forall2_cons_2;
      [do 2 eexists; split; [reflexivity|split; [eassumption|reflexivity]]|] ].

Ltac quiet_done :=
  repeat first
    [ apply Forall_nil_2
    | apply Forall_cons_2;
      [split;
       [first [reflexivity | apply bool_decide_eq_false_2; congruence]
       |reflexivity]|] ].

Ltac pick_pipes :=
  lazymatch goal with
  | |- context [stage_printenv ?pipes _] => exists pipes
  | _ => exists []
  end.

Ltac in_ends := apply list_elem_of_In; cbn; auto 10.

(** From the calls made on a path to what the tables hold. *)
Ltac chain_pipe :=
  match goal with
  | E : do_pipe _ ?t = (?p, ?t'), L : layout ?pipes ?open ?t, S : std ?t |- _ =>
      let L' := fresh "L" in
      let S' := fresh "S" in
      let H0 := fresh "H" in
      let H1 := fresh "H" in
      destruct (layout_pipe pipes open t p t' L) as (L' & H0 & H1);
      [ rewrite (proj1 S); eauto
      | rewrite (proj2 S); eauto
      | intros ? ? ?Hin; apply list_elem_of_In in Hin; cbn in Hin |- *;
        intuition (simplify_eq; lia)
      | exact E
      | assert (S' : std t')
          by (destruct S; split; congruence);
        cbn [app length] in L'; clear E H0 H1 ]
  end.

Ltac chain_close e :=
  match goal with
  | E : guarded _ _ _ (do_close ?t (fd_at ?pipes ?p (side e))) = (?ret, ?t'),
    H : -1 <> ?ret, L : layout ?pipes ?open ?t, S : std ?t |- _ =>
      let L' := fresh "L" in
      let S' := fresh "S" in
      let H0 := fresh "H" in
      let H1 := fresh "H" in
      apply closed in E; [|exact H]; subst t';
      destruct (layout_close pipes open t p e L) as (L' & H0 & H1);
      [ in_ends
      | assert (S' : std (delete (fd_at pipes p (side e)) t))
          by (destruct S; split; congruence);
        let o := eval vm_compute in (without (p, e) open) in
        change (without (p, e) open) with o in L';
        clear H0 H1 ]
  end.

Ltac chain :=
  repeat chain_pipe;
  repeat first [chain_close ReadEnd | chain_close WriteEnd].

Ltac born_done :=
  repeat first
    [ apply Forall2_nil_2
    | apply Forall2_cons_2; [split; assumption|] ].

Section Building.
Context (w : world).

(** The children of [build] are the stages of the plan, as many as were
    created, each born with the pipe ends the parent held then; [build]
    returns once all of them are, without a failed call and without a
    [printf], and otherwise ends the parent with a message and status
    1. *)
Lemma build_children argv st :
  let r := run w (build argv) [] st in
  exists pipes,
    Forall2 (behaves w) (take (length (spawned r)) (plan argv pipes)) (spawned r)
    /\ (fresh_start st ->
        Forall2 (fun open c => layout pipes open (fdt (born c))
                               /\ std (fdt (born c)))
          (take (length (spawned r)) (born_open argv)) (spawned r))
    /\ match res r with
       | Returned cur st' =>
           cur = length (plan argv pipes)
           /\ length (spawned r) = cur
           /\ nwaits st' = nwaits st
           /\ Forall (fun e => failed e = false /\ is_printf e = false)
                (trace r)
           /\ (fresh_start st ->
               layout pipes (left_open argv) (fdt st') /\ std (fdt st'))
       | Ended o _ => o = Exited 1 /\ reported (trace r) = true
       end.
Proof.
  cbv zeta. unfold plan, born_open, left_open. walk_build.
  all: pick_pipes; split; [behaves_done|].
  all: split;
    [ intros Hfresh; pose proof (layout_fresh st Hfresh) as L;
      destruct Hfresh as (S & Hnp & _); rewrite ?Hnp in *;
      change PIPE_IN with (side ReadEnd) in *;
      change PIPE_OUT with (side WriteEnd) in *;
      chain; born_done
    | ].
  all: first [ solve [split; reflexivity]
             | do 3 (split; [reflexivity|]); split; [quiet_done|] ].
  all: intros Hfresh; pose proof (layout_fresh st Hfresh) as L;
    destruct Hfresh as (S & Hnp & _); rewrite ?Hnp in *;
    change PIPE_IN with (side ReadEnd) in *;
    change PIPE_OUT with (side WriteEnd) in *;
    chain; split; assumption.
Qed.
End Building.

(** ** Waiting for the children *)

Lemma reported_cons e tr : reported tr = true -> reported (e :: tr) = true.
Proof.
  intros H. cbn. destruct e; try assumption.
  destruct tr as [|e' [|e'' tr']]; try assumption.
  - destruct e'; try assumption. discriminate H.
  - destruct e'; assumption.
Qed.

Lemma reported_app tr1 tr2 :
  reported tr2 = true -> reported (tr1 ++ tr2) = true.
Proof.
  intros H. induction tr1 as [|e tr1 IH]; [assumption|].
  apply reported_cons, IH.
Qed.

Section Reaping.
Context (w : world).

(** Lines 271-291 when [wait] reports a child. *)
Lemma reap_child_run ev me st pid status :
  reaped w !! nwaits st = Some (pid, status) ->
  run w (reap_child ev) me st =
  let st' := after_wait st in
  if WIFEXITED status then
    if decide (0 = ev /\ 0 <> WEXITSTATUS status) then
      Run (Returned (WEXITSTATUS status) (tick st' (fdt st')))
        [EvWait (Z.pos pid) status;
         EvPrintf (exit_diag (WEXITSTATUS status) (Z.pos pid))] []
    else Run (Returned ev st') [EvWait (Z.pos pid) status] []
  else
    if decide (0 = ev /\ WIFSIGNALED status = true) then
      Run (Returned ev (tick st' (fdt st')))
        [EvWait (Z.pos pid) status;
         EvPrintf (signal_diag (WTERMSIG status) (Z.pos pid))] []
    else Run (Returned ev st') [EvWait (Z.pos pid) status] [].
Proof.
  intros Hw. unfold reap_child.
  cbn -[check_sys_return decide WIFEXITED WIFSIGNALED WEXITSTATUS WTERMSIG].
  rewrite Hw.
  cbn -[check_sys_return decide WIFEXITED WIFSIGNALED WEXITSTATUS WTERMSIG].
  rewrite run_check. rewrite (decide_False (P := -1 = Z.pos pid)) by discriminate.
  destruct (WIFEXITED status).
  - destruct (decide (0 = ev /\ 0 <> WEXITSTATUS status)); reflexivity.
  - destruct (decide (0 = ev /\ WIFSIGNALED status = true)); reflexivity.
Qed.

(** Line 272 when there is no child left to wait for. *)
Lemma reap_child_none ev me st :
  reaped w !! nwaits st = None ->
  run w (reap_child ev) me st =
  Run (Ended (Exited 1) (tick (after_wait st) (fdt st)))
    [EvWait (-1) 0; EvPerror "@digenv: wait() returned unexpectedly"; EvExit 1]
    [].
Proof.
  intros Hw. unfold reap_child. cbn -[check_sys_return]. rewrite Hw.
  cbn -[check_sys_return]. rewrite run_check. reflexivity.
Qed.

Lemma run_reap_S n ev me st :
  run w (reap (S n) ev) me st =
  then_run (fun ev' => run w (reap n ev')) me (run w (reap_child ev) me st).
Proof. apply (run_bind w (reap_child ev) (fun ev' => reap n ev')). Qed.

(** The loop creates no process; it comes back without a failed call and
    with the descriptors it started with, or ends the parent with a
    message and status 1. *)
Lemma reap_ends n : forall ev me st,
  let r := run w (reap n ev) me st in
  spawned r = []
  /\ match res r with
     | Returned _ st' =>
         Forall (fun e => failed e = false) (trace r) /\ fdt st' = fdt st
     | Ended o _ => o = Exited 1 /\ reported (trace r) = true
     end.
Proof.
  induction n as [|n IH]; intros ev me st; cbv zeta.
  - cbn. repeat split. constructor.
  - rewrite run_reap_S.
    destruct (reaped w !! nwaits st) as [[pid status]|] eqn:Hw.
    + rewrite (reap_child_run ev me st pid status Hw). cbv zeta.
      destruct (WIFEXITED status);
        [destruct (decide (0 = ev /\ 0 <> WEXITSTATUS status))
        |destruct (decide (0 = ev /\ WIFSIGNALED status = true))].
      all: unfold then_run;
        cbn [res trace spawned continue flat_map app];
        match goal with
        | |- context [run ?w' (reap ?n' ?e) ?m ?s] =>
            destruct (IH e m s) as [Hsp Hres]; rewrite Hsp;
            destruct (res (run w' (reap n' e) m s)) as [ev' st'|o st']
        end.
      all: split; [reflexivity|].
      all: destruct Hres as [H1 H2]; split;
        [first [assumption | repeat (apply Forall_cons_2; [reflexivity|]);
                assumption]
        |first [assumption
               |apply (reported_app [_]); assumption
               |apply (reported_app [_; _]); assumption]].
    + rewrite (reap_child_none ev me st Hw). unfold then_run. cbn.
      repeat split.
Qed.
End Reaping.

Section ReapingOrder.
Context (w : world).

Lemma prepend_nil {A : Type} (r : run_result A) : prepend [] r = r.
Proof. destruct r; reflexivity. Qed.

(** With a failure on record, the loop only waits. *)
Lemma reap_recorded n : forall ev me st,
  ev <> 0 ->
  (n + nwaits st <= length (reaped w))%nat ->
  exists st',
    run w (reap n ev) me st =
    Run (Returned ev st') (ev_wait <$> take n (drop (nwaits st) (reaped w))) [].
Proof.
  induction n as [|n IH]; intros ev me st Hev Hlen.
  - exists st. reflexivity.
  - destruct (lookup_lt_is_Some_2 (reaped w) (nwaits st)) as [[pid status] Hw];
      [lia|].
    rewrite run_reap_S, (reap_child_run w ev me st pid status Hw). cbv zeta.
    destruct (IH ev me (after_wait st) Hev) as [st' Hrun]; [cbn; lia|].
    assert (Hgo : then_run (fun ev' => run w (reap n ev')) me
                    (Run (Returned ev (after_wait st))
                       [EvWait (Z.pos pid) status] [])
                  = Run (Returned ev st')
                      (ev_wait <$> take (S n) (drop (nwaits st) (reaped w))) []).
    { unfold then_run. cbn [res trace spawned continue flat_map app].
      rewrite Hrun. cbn [res trace spawned].
      rewrite (drop_S _ _ _ Hw). reflexivity. }
    exists st'. rewrite <- Hgo.
    destruct (WIFEXITED status).
    + rewrite decide_False by (intros [? _]; congruence). reflexivity.
    + rewrite decide_False by (intros [? _]; congruence). reflexivity.
Qed.

(** Children that exited with status 0 leave no mark. *)
Lemma reap_clean pre : forall n me st rest,
  drop (nwaits st) (reaped w) = pre ++ rest ->
  Forall clean pre ->
  (length pre <= n)%nat ->
  exists st',
    nwaits st' = (length pre + nwaits st)%nat
    /\ fdt st' = fdt st
    /\ run w (reap n 0) me st =
       prepend (ev_wait <$> pre) (run w (reap (n - length pre) 0) me st').
Proof.
  induction pre as [|[pid status] pre IH]; intros n me st rest Hdrop Hclean Hlen.
  - exists st. rewrite Nat.sub_0_r, prepend_nil. repeat split.
  - destruct n as [|n]; [cbn in Hlen; lia|].
    assert (Hw : reaped w !! nwaits st = Some (pid, status)).
    { rewrite <- (Nat.add_0_r (nwaits st)), <- lookup_drop, Hdrop. reflexivity. }
    apply Forall_cons in Hclean as [[Hex Hst] Hclean]. cbn in Hex, Hst.
    destruct (IH n me (after_wait st) rest) as (st' & Hn & Hfd & Hrun).
    { cbn [nwaits after_wait]. rewrite <- (Nat.add_1_r (nwaits st)).
      rewrite <- drop_drop, Hdrop. reflexivity. }
    { assumption. }
    { cbn in Hlen. lia. }
    exists st'. split; [cbn in Hn |- *; lia|]. split; [assumption|].
    rewrite run_reap_S, (reap_child_run w 0 me st pid status Hw). cbv zeta.
    rewrite Hex, Hst.
    rewrite decide_False by (intros [_ H]; apply H; reflexivity).
    unfold then_run. cbn [res trace spawned continue flat_map app].
    rewrite Hrun. reflexivity.
Qed.
End ReapingOrder.

(** ** The whole program *)

Section Whole.
Context (w : world).

Lemma behaves_continue {A B : Type} (h : A -> sem B) blks (cs : list (proc A)) :
  Forall2 (behaves w) blks cs ->
  Forall2 (behaves w) blks (flat_map (continue_proc h) cs).
Proof.
  induction 1 as [|blk c blks cs (o & st & Hfate & Hres & Hdid) _ IH];
    [constructor|].
  cbn [flat_map]. unfold continue_proc at 1. rewrite Hfate.
  cbn [continue spawned res trace app]. constructor; [|exact IH].
  exists o, st. cbn [fate who born did]. rewrite app_nil_r. auto.
Qed.

Lemma tail_spawned cur me st :
  spawned (run w (reap cur 0 ≫= exit (A := Empty_set)) me st) = [].
Proof.
  rewrite run_bind. unfold then_run. cbn [spawned].
  destruct (reap_ends w cur 0 me st) as [-> _]. cbn [flat_map app].
  destruct (res (run w (reap cur 0) me st)); reflexivity.
Qed.

Lemma digenv_unfold argv :
  digenv w argv =
  then_run (fun cur => run w (reap cur 0 ≫= exit (A := Empty_set))) []
    (run w (build argv) [] (boot w)).
Proof. apply (run_bind w (build argv)). Qed.

Lemma digenv_spawned argv :
  spawned (digenv w argv) =
  flat_map
    (continue_proc (fun cur => run w (reap cur 0 ≫= exit (A := Empty_set))))
    (spawned (run w (build argv) [] (boot w))).
Proof.
  rewrite digenv_unfold. unfold then_run. cbn [spawned].
  destruct (res (run w (build argv) [] (boot w))) as [cur st|o st];
    cbn [continue]; rewrite ?tail_spawned; apply app_nil_r.
Qed.

(** The children of the whole program are the stages of the plan. *)
Lemma digenv_children argv :
  exists pipes,
    Forall2 (behaves w)
      (take (length (spawned (digenv w argv))) (plan argv pipes))
      (spawned (digenv w argv))
    /\ forall cur st,
         res (run w (build argv) [] (boot w)) = Returned cur st ->
         cur = length (plan argv pipes)
         /\ length (spawned (digenv w argv)) = cur.
Proof.
  destruct (build_children w argv (boot w)) as (pipes & Hch & _ & Hres).
  cbv zeta in Hch, Hres. exists pipes.
  pose proof (behaves_continue
                (fun cur => run w (reap cur 0 ≫= exit (A := Empty_set))) _ _ Hch)
    as Hch'.
  rewrite <- digenv_spawned in Hch'.
  assert (Hlen : length (spawned (digenv w argv))
                 = length (spawned (run w (build argv) [] (boot w)))).
  { apply Forall2_length in Hch, Hch'. congruence. }
  rewrite Hlen. split; [exact Hch'|].
  intros cur st Hret. rewrite Hret in Hres. tauto.
Qed.

Lemma child_in_plan argv c :
  c ∈ spawned (digenv w argv) ->
  exists pipes blk, blk ∈ plan argv pipes /\ behaves w blk c.
Proof.
  intros Hin. destruct (digenv_children argv) as (pipes & Hch & _).
  exists pipes.
  apply list_elem_of_lookup in Hin as [i Hi].
  destruct (Forall2_lookup_r _ _ _ _ _ Hch Hi) as (blk & Hblk & Hb).
  exists blk. split; [|exact Hb].
  apply lookup_take_Some in Hblk as [Hblk _].
  eapply list_elem_of_lookup_2, Hblk.
Qed.

(** Every child runs one of the four stage bodies. *)
Lemma child_is_stage argv c :
  c ∈ spawned (digenv w argv) ->
  exists pipes cur,
    behaves w (stage_printenv pipes cur) c
    \/ behaves w (stage_grep argv pipes cur) c
    \/ behaves w (stage_sort pipes cur) c
    \/ behaves w (stage_pager pipes cur) c.
Proof.
  intros (pipes & blk & Hblk & Hb)%child_in_plan. exists pipes.
  unfold plan in Hblk. destruct (decide (Z.of_nat (length argv) > 1));
    repeat (apply elem_of_cons in Hblk as [->|Hblk]; [eauto 6|]);
    apply elem_of_nil in Hblk; contradiction.
Qed.
End Whole.

(** ** Properties of the stage processes *)

(** How a child ends, and that it leaves the parent's calls alone. *)
Lemma child_fate w argv c :
  c ∈ spawned (digenv w argv) ->
  ((exists f v st, fate c = Ended (Became f v) st
                   /\ (f, v) ∈ stage_targets w argv)
   \/ (exists st, fate c = Ended (Exited 1) st /\ reported (did c) = true))
  /\ forallb (fun e => negb (builder_call e)) (did c) = true.
Proof.
  intros Hin.
  assert (Hgen : forall targets blk,
             (forall fv, fv ∈ targets -> fv ∈ stage_targets w argv) ->
             stage_ends targets (run w blk (who c) (born c)) ->
             behaves w blk c ->
             ((exists f v st, fate c = Ended (Became f v) st
                              /\ (f, v) ∈ stage_targets w argv)
              \/ (exists st, fate c = Ended (Exited 1) st
                             /\ reported (did c) = true))
             /\ forallb (fun e => negb (builder_call e)) (did c) = true).
  { intros targets blk Hsub [_ Hhow Hapart] (o & st & Hfate & Hres & Hdid).
    rewrite Hdid. split; [|exact Hapart].
    destruct Hhow as [(st' & Hres' & Hrep) | (f & v & st' & Hres' & Htg)];
      rewrite Hres in Hres'; injection Hres' as -> ->.
    - right. eauto.
    - left. exists f, v, st'. auto. }
  assert (Hfix : forall fv fv' : string * list string,
             fv' ∈ [("printenv", ["printenv"]); ("grep", argv); ("sort", ["sort"])] ->
             fv ∈ [fv'] -> fv ∈ stage_targets w argv).
  { intros fv fv' Hfv' ->%list_elem_of_singleton.
    apply elem_of_app. left. exact Hfv'. }
  destruct (child_is_stage w argv c Hin) as (pipes & cur & [H|[H|[H|H]]]).
  - eapply Hgen; [|apply stage_printenv_ends|exact H].
    intros fv. apply Hfix. rewrite !elem_of_cons. left; reflexivity.
  - eapply Hgen; [|apply stage_grep_ends|exact H].
    intros fv. apply Hfix. rewrite !elem_of_cons. right; left; reflexivity.
  - eapply Hgen; [|apply stage_sort_ends|exact H].
    intros fv. apply Hfix. rewrite !elem_of_cons. right; right; left; reflexivity.
  - eapply Hgen; [|apply stage_pager_ends|exact H].
    intros fv Hfv. apply elem_of_app. right. exact Hfv.
Qed.

(** C7: a stage process does exactly what its stage body does; it turns
    into one of the stage programs or prints a message and exits with
    status 1, and it issues no [pipe], [fork] or [wait]. *)
Theorem stage_becomes_target_or_exits_1 w argv c :
  c ∈ spawned (digenv w argv) ->
  (exists pipes blk, blk ∈ plan argv pipes /\ behaves w blk c)
  /\ ((exists f v st, fate c = Ended (Became f v) st
                      /\ (f, v) ∈ stage_targets w argv)
      \/ (exists st, fate c = Ended (Exited 1) st /\ reported (did c) = true))
  /\ forallb (fun e => negb (builder_call e)) (did c) = true.
Proof.
  intros Hin. split; [apply child_in_plan, Hin|apply child_fate, Hin].
Qed.

(** C9: the only [execvp] of the program is that of the filter stage, and it
    passes the whole argument vector of the pipeline: the invocation name
    in slot 0, then the user's arguments. *)
Theorem filter_gets_whole_argv w name args c file v ok :
  c ∈ spawned (digenv w (name :: args)) ->
  EvExecvp file v ok ∈ did c ->
  file = "grep" /\ v = name :: args.
Proof.
  intros Hin Hev.
  assert (Hfree : forall blk,
             Forall execvp_free (trace (run w blk (who c) (born c))) ->
             behaves w blk c -> file = "grep" /\ v = name :: args).
  { intros blk Hall (o & st & _ & _ & Hdid). rewrite Hdid in Hev.
    rewrite Forall_forall in Hall. destruct (Hall _ Hev). }
  destruct (child_is_stage w _ c Hin) as (pipes & cur & [H|[H|[H|H]]]).
  - eapply Hfree; [apply stage_printenv_execvp|exact H].
  - destruct H as (o & st & _ & _ & Hdid). rewrite Hdid in Hev.
    pose proof (stage_grep_execvp w (name :: args) pipes cur (who c) (born c))
      as Hall.
    rewrite Forall_forall in Hall. exact (Hall _ Hev).
  - eapply Hfree; [apply stage_sort_execvp|exact H].
  - eapply Hfree; [apply stage_pager_execvp|exact H].
Qed.

Lemma stage_pager_consults w pipes cur me st :
  let r := run w (stage_pager pipes cur) me st in
  existsb wiring_failed (trace r) = false ->
  exists e1 e2 post,
    trace r = [e1; e2] ++ EvGetenv "PAGER" (environ w "PAGER") :: post.
Proof.
  cbv zeta. unfold stage_pager, check_pager.
  repeat sym_step; sym_cbn; intros Hok;
    repeat match type of Hok with
      | (_ || _) = false => apply orb_false_elim in Hok as [? Hok]
      end;
    repeat match goal with
      | H : bool_decide _ = false |- _ => apply bool_decide_eq_false in H
      end;
    try congruence; do 3 eexists; reflexivity.
Qed.

Lemma sink_is_pager w argv c :
  spawned (digenv w argv) !! sink_index argv = Some c ->
  exists pipes cur, behaves w (stage_pager pipes cur) c.
Proof.
  intros Hc. destruct (digenv_children w argv) as (pipes & Hch & _).
  destruct (Forall2_lookup_r _ _ _ _ _ Hch Hc) as (blk & Hblk & Hb).
  apply lookup_take_Some in Hblk as [Hblk _].
  unfold plan, sink_index in Hblk.
  destruct (decide (Z.of_nat (length argv) > 1));
    [rewrite decide_True in Hblk by lia|rewrite decide_False in Hblk by lia];
    injection Hblk as <-; eauto.
Qed.

(** The order of the calls: where a stage process finds PAGER set, whatever
    its value, it has tried no [exec] yet and its next call is the [printf]
    of "Found PAGER: " and the value; and the last stage does look PAGER up
    once its two wiring calls have succeeded. *)
Lemma found_pager_call_comes_first w argv c v :
  c ∈ spawned (digenv w argv) ->
  environ w "PAGER" = Some v ->
  (forall pre post,
      did c = pre ++ EvGetenv "PAGER" (Some v) :: post ->
      forallb (fun e => negb (is_exec e)) pre = true
      /\ exists post', post = EvPrintf ("Found PAGER: " +:+ v) :: post')
  /\ (spawned (digenv w argv) !! sink_index argv = Some c ->
      existsb wiring_failed (did c) = false ->
      exists pre post, did c = pre ++ EvGetenv "PAGER" (Some v) :: post).
Proof.
  intros Hin Hv. split.
  - intros pre post Hdid.
    destruct (child_is_stage w argv c Hin)
      as (pipes & cur & [H|[H|[H|H]]]);
      destruct H as (o & st & _ & _ & Hrun); rewrite Hrun in Hdid.
    + exact (stage_printenv_announces w pipes cur _ _ pre v post Hdid).
    + exact (stage_grep_announces w argv pipes cur _ _ pre v post Hdid).
    + exact (stage_sort_announces w pipes cur _ _ pre v post Hdid).
    + exact (stage_pager_announces w pipes cur _ _ pre v post Hdid).
  - intros Hc Hok.
    destruct (sink_is_pager w argv c Hc) as (pipes & cur & o & st & _ & _ & Hrun).
    rewrite Hrun in Hok |- *.
    destruct (stage_pager_consults w pipes cur _ _ Hok) as (e1 & e2 & post & ->).
    rewrite Hv. eauto.
Qed.

Lemma put_stays io s : stays_buffered io s -> put io "" s = ("", s).
Proof.
  intros [Hlen Hnl]. unfold put. change ("" +:+ s) with s. cbv zeta.
  destruct (Nat.ltb_spec (capacity io) (String.length s)) as [H|_]; [lia|].
  destruct (mode io); [rewrite Hnl by reflexivity|]; reflexivity.
Qed.

Section Announcing.
Context (w : world).

(** The parent prints nothing while it creates the stages: every stage
    starts with an empty buffer. *)
Lemma build_prints_nothing argv st :
  existsb is_printf (trace (run w (build argv) [] st)) = false.
Proof. walk_build. all: reflexivity. Qed.

Lemma stage_pager_stdio io pipes cur me st v :
  environ w "PAGER" = Some v ->
  stays_buffered io ("Found PAGER: " +:+ v) ->
  let r := run w (stage_pager pipes cur) me st in
  existsb wiring_failed (trace r) = false ->
  (exists pre post,
      trace r = pre ++ EvGetenv "PAGER" (Some v)
                    :: EvPrintf ("Found PAGER: " +:+ v) :: post
      /\ forallb (fun e => negb (is_exec e)) pre = true)
  /\ (forall n e,
        trace r !! n = Some e -> is_exec e = true ->
        wrote (stdio_run io (take n (trace r))) = "")
  /\ (forall f a st',
        res r = Ended (Became f a) st' -> wrote (stdio_run io (trace r)) = "")
  /\ (forall status st',
        res r = Ended (Exited status) st' ->
        wrote (stdio_run io (trace r)) = "Found PAGER: " +:+ v).
Proof.
  intros Hv Hfit. cbv zeta. unfold stage_pager, check_pager.
  repeat sym_step; sym_cbn; intros Hok;
    repeat match type of Hok with
      | (_ || _) = false => apply orb_false_elim in Hok as [? Hok]
      end;
    repeat match goal with
      | H : bool_decide _ = false |- _ => apply bool_decide_eq_false in H
      end;
    try congruence.
  all: match goal with
       | H : environ w "PAGER" = _ |- _ => rewrite Hv in H
       end.
  all: try discriminate.
  all: match goal with H : Some _ = Some _ |- _ => injection H as <- end.
  all: split; [eexists [_; _], _; split; reflexivity|].
  all: unfold stdio_run.
  all: split;
    [intros k e Hk He;
     repeat (destruct k as [|k]; cbn in Hk;
             [injection Hk as <-;
              first [discriminate He
                    | cbn; rewrite ?(put_stays io _ Hfit); reflexivity]|]);
     discriminate Hk|].
  all: split; [intros f a st'|intros status st']; intros [=];
    cbn [fold_left stdio_step pending wrote fst snd];
    rewrite ?(put_stays io _ Hfit); reflexivity.
Qed.
End Announcing.

(** C10 fails on the code.  The last stage does call [printf] with "Found
    PAGER: " and the value before it tries any [exec], and it starts with
    an empty buffer, the parent having printed nothing by then.  But line
    245 ends no line and nothing flushes stdout: as long as the text has
    room in the buffer, nothing has been written to descriptor 1 at any
    [exec] the stage tries; when one of them succeeds the text is gone with
    the old image; when all fail it is written at last by [exit(1)], after
    every attempt. *)
Theorem found_pager_is_not_written_before_exec w argv io c v :
  spawned (digenv w argv) !! sink_index argv = Some c ->
  existsb wiring_failed (did c) = false ->
  environ w "PAGER" = Some v ->
  stays_buffered io ("Found PAGER: " +:+ v) ->
  existsb is_printf (trace (run w (build argv) [] (boot w))) = false
  /\ (exists pre post,
        did c = pre ++ EvGetenv "PAGER" (Some v)
                    :: EvPrintf ("Found PAGER: " +:+ v) :: post
        /\ forallb (fun e => negb (is_exec e)) pre = true)
  /\ (forall n e,
        did c !! n = Some e -> is_exec e = true ->
        wrote (stdio_run io (take n (did c))) = "")
  /\ (forall f a st,
        fate c = Ended (Became f a) st -> wrote (stdio_run io (did c)) = "")
  /\ (forall status st,
        fate c = Ended (Exited status) st ->
        wrote (stdio_run io (did c)) = "Found PAGER: " +:+ v).
Proof.
  intros Hc Hok Hv Hfit. split; [apply build_prints_nothing|].
  destruct (sink_is_pager w argv c Hc)
    as (pipes & cur & o & st & Hfate & Hres & Hrun).
  rewrite Hrun in Hok |- *.
  destruct (stage_pager_stdio w io pipes cur _ _ v Hv Hfit Hok)
    as (Hcall & Hexec & Hbecame & Hexited).
  split; [exact Hcall|]. split; [exact Hexec|]. rewrite Hfate. split.
  - intros f a st' [= -> ->]. exact (Hbecame f a st' Hres).
  - intros status st' [= -> ->]. exact (Hexited status st' Hres).
Qed.

Lemma found_pager_is_not_written_before_exec_witness :
  let w := calm (pager_is "more") [] in
  let io := Stdio LineBuffered 1024 in
  exists c st,
    spawned (digenv w ["digenv"]) !! sink_index ["digenv"] = Some c
    /\ existsb wiring_failed (did c) = false
    /\ environ w "PAGER" = Some "more"
    /\ stays_buffered io ("Found PAGER: " +:+ "more")
    /\ did c = [EvDup2 5 0 0; EvClose 6 0; EvGetenv "PAGER" (Some "more");
                EvPrintf "Found PAGER: more"; EvExeclp "more" ["more"] true]
    /\ fate c = Ended (Became "more" ["more"]) st
    /\ wrote (stdio_run io (did c)) = "".
Proof.
  intros w io.
  assert (Hc : is_Some (spawned (digenv w ["digenv"]) !! sink_index ["digenv"]))
    by (vm_compute; eauto).
  destruct Hc as [c Hc].
  assert (Hdid : did c = [EvDup2 5 0 0; EvClose 6 0;
                          EvGetenv "PAGER" (Some "more");
                          EvPrintf "Found PAGER: more";
                          EvExeclp "more" ["more"] true]).
  { pose proof Hc as Hc'. vm_compute in Hc'. injection Hc' as <-. reflexivity. }
  assert (Hf : exists st, fate c = Ended (Became "more" ["more"]) st).
  { pose proof Hc as Hc'. vm_compute in Hc'. injection Hc' as <-. eauto. }
  destruct Hf as [st Hf].
  assert (Hok : existsb wiring_failed (did c) = false)
    by (rewrite Hdid; reflexivity).
  assert (Hv : environ w "PAGER" = Some "more") by reflexivity.
  assert (Hfit : stays_buffered io ("Found PAGER: " +:+ "more")).
  { split; [apply Nat.leb_le; reflexivity|intros _; reflexivity]. }
  exists c, st. repeat (split; [assumption|]).
  destruct (found_pager_is_not_written_before_exec w ["digenv"] io c "more"
              Hc Hok Hv Hfit) as (_ & _ & _ & Hlost & _).
  exact (Hlost _ _ st Hf).
Defined.

(** C4, as the code has it: the stage process that looks PAGER up tries the
    program it names first whenever the variable is set, be it to the empty
    string, then less, then more, up to the first that can be run; with
    none it prints a message and exits with status 1. *)
Theorem pager_tried_in_order w argv c :
  c ∈ spawned (digenv w argv) ->
  consults_pager (did c) = true ->
  exists o st,
    fate c = Ended o st
    /\ falls_through (pager_candidates (environ w "PAGER")) o (did c).
Proof.
  intros Hin Hcons.
  destruct (child_is_stage w argv c Hin)
    as (pipes & cur & [H|[H|[H|H]]]);
    destruct H as (o & st & Hfate & Hres & Hrun); rewrite Hrun in Hcons.
  - rewrite stage_printenv_no_pager in Hcons. discriminate.
  - rewrite stage_grep_no_pager in Hcons. discriminate.
  - rewrite stage_sort_no_pager in Hcons. discriminate.
  - exists o, st. split; [exact Hfate|]. rewrite Hrun.
    exact (stage_pager_falls w pipes cur _ _ Hcons o st Hres).
Qed.

(** A child picked out of a run by its position, made concrete. *)
Ltac pick_child i c Hc Hin :=
  match goal with
  | |- context [spawned ?r] =>
      assert (Hc : is_Some (spawned r !! i)) by (vm_compute; eauto);
      destruct Hc as [c Hc];
      assert (Hin : c ∈ spawned r) by exact (list_elem_of_lookup_2 _ _ _ Hc);
      vm_compute in Hc; injection Hc as Hc
  end.

Lemma stage_becomes_target_or_exits_1_witness :
  exists c,
    c ∈ spawned (digenv (calm no_env []) ["digenv"; "PATH"])
    /\ (exists f v st, fate c = Ended (Became f v) st
                       /\ (f, v) ∈ stage_targets (calm no_env []) ["digenv"; "PATH"])
    /\ forallb (fun e => negb (builder_call e)) (did c) = true.
Proof.
  pick_child 1%nat c Hc Hin. exists c. split; [exact Hin|].
  destruct (stage_becomes_target_or_exits_1 _ _ c Hin)
    as (_ & [Hb | (st & Hfate & _)] & Hapart).
  - split; [exact Hb|exact Hapart].
  - rewrite <- Hc in Hfate. discriminate Hfate.
Defined.

Lemma filter_gets_whole_argv_witness :
  exists c ok,
    c ∈ spawned (digenv (calm no_env []) ["digenv"; "-i"; "path"])
    /\ EvExecvp "grep" ["digenv"; "-i"; "path"] ok ∈ did c
    /\ "grep" = "grep" /\ ["digenv"; "-i"; "path"] = "digenv" :: ["-i"; "path"].
Proof.
  pick_child 1%nat c Hc Hin. exists c, true.
  assert (Hev : EvExecvp "grep" ["digenv"; "-i"; "path"] true ∈ did c).
  { rewrite <- Hc. cbn [did]. apply list_elem_of_In. cbn. tauto. }
  split; [exact Hin|]. split; [exact Hev|].
  exact (filter_gets_whole_argv _ _ _ c _ _ _ Hin Hev).
Defined.

(** C4 as stated fails: with PAGER set to the empty string the stage still
    tries to run the program it names (here that fails) before less. *)
Lemma empty_pager_is_still_tried :
  environ (faulty [([7%nat], 12%nat)] (pager_is "") []) "PAGER" = Some ""
  /\ (fun c => execs (did c))
     <$> spawned (digenv (faulty [([7%nat], 12%nat)] (pager_is "") [])
                    ["digenv"]) !! 2%nat
     = Some [EvExeclp "" [""] false; EvExeclp "less" ["less"] true].
Proof. split; vm_compute; reflexivity. Qed.

Lemma pager_tried_in_order_witness :
  exists c,
    c ∈ spawned (digenv (faulty [([7%nat], 11%nat)] no_env []) ["digenv"])
    /\ consults_pager (did c) = true
    /\ exists o st,
         fate c = Ended o st
         /\ falls_through (pager_candidates None) o (did c).
Proof.
  pick_child 2%nat c Hc Hin. exists c.
  assert (Hcons : consults_pager (did c) = true) by (rewrite <- Hc; reflexivity).
  split; [exact Hin|]. split; [exact Hcons|].
  exact (pager_tried_in_order _ _ c Hin Hcons).
Defined.

(** ** The topology *)

(** C3: the stages are four when arguments were given (printenv, grep,
    sort, pager) and three otherwise (printenv, sort, pager); the processes
    created are the first stages of that list, in order, and all of them
    once [build] has returned.  With arguments the second process, when it
    turns into its program, runs grep on exactly the given arguments;
    without arguments no process ever calls the filter's [execvp]. *)
Theorem topology_follows_arguments w argv :
  (exists pipes,
      plan argv pipes
      = (if decide (1 < length argv)%nat then
           [stage_printenv pipes 0; stage_grep argv pipes 1;
            stage_sort pipes 2; stage_pager pipes 3]
         else [stage_printenv pipes 0; stage_sort pipes 1; stage_pager pipes 2])
      /\ Forall2 (behaves w)
           (take (length (spawned (digenv w argv))) (plan argv pipes))
           (spawned (digenv w argv))
      /\ forall cur st,
           res (run w (build argv) [] (boot w)) = Returned cur st ->
           cur = (if decide (1 < length argv)%nat then 4 else 3)%nat
           /\ length (spawned (digenv w argv)) = cur)
  /\ (forall c f v st',
        (1 < length argv)%nat ->
        spawned (digenv w argv) !! 1%nat = Some c ->
        fate c = Ended (Became f v) st' ->
        f = "grep" /\ drop 1 v = drop 1 argv)
  /\ ((length argv <= 1)%nat ->
      forall c, c ∈ spawned (digenv w argv) -> Forall execvp_free (did c)).
Proof.
  destruct (digenv_children w argv) as (pipes & Hch & Hlen).
  assert (Hplan : plan argv pipes
                  = (if decide (1 < length argv)%nat then
                       [stage_printenv pipes 0; stage_grep argv pipes 1;
                        stage_sort pipes 2; stage_pager pipes 3]
                     else [stage_printenv pipes 0; stage_sort pipes 1;
                           stage_pager pipes 2])).
  { unfold plan. destruct (decide (Z.of_nat (length argv) > 1));
      [rewrite decide_True by lia|rewrite decide_False by lia]; reflexivity. }
  split; [|split].
  - exists pipes. split; [exact Hplan|]. split; [exact Hch|].
    intros cur st Hret. destruct (Hlen cur st Hret) as [-> Hsp].
    split; [|exact Hsp]. rewrite Hplan.
    destruct (decide (1 < length argv)%nat); reflexivity.
  - intros c f v st' Hargs Hc Hfate.
    destruct (Forall2_lookup_r _ _ _ _ _ Hch Hc) as (blk & Hblk & Hb).
    apply lookup_take_Some in Hblk as [Hblk _].
    rewrite Hplan, decide_True in Hblk by exact Hargs.
    injection Hblk as <-.
    destruct Hb as (o & st2 & Hfate2 & Hres2 & _).
    rewrite Hfate in Hfate2. injection Hfate2 as <- <-.
    destruct (stage_grep_ends w argv pipes 1 (who c) (born c))
      as [_ [(st3 & Hres3 & _) | (f' & v' & st3 & Hres3 & Htg)] _];
      rewrite Hres2 in Hres3; [discriminate Hres3|].
    injection Hres3 as <- <- <-.
    apply list_elem_of_singleton in Htg. injection Htg as -> ->. auto.
  - intros Hargs c Hin.
    destruct (child_in_plan w argv c Hin) as (pipes' & blk & Hblk & Hb).
    destruct Hb as (o & st & _ & _ & ->).
    unfold plan in Hblk. rewrite decide_False in Hblk by lia.
    repeat (apply elem_of_cons in Hblk as [->|Hblk]);
      [apply stage_printenv_execvp|apply stage_sort_execvp
      |apply stage_pager_execvp|].
    apply elem_of_nil in Hblk. contradiction.
Qed.

Lemma topology_follows_arguments_witness :
  (exists c st',
      (1 < length ["digenv"; "-i"; "path"])%nat
      /\ spawned (digenv (calm no_env []) ["digenv"; "-i"; "path"]) !! 1%nat
         = Some c
      /\ fate c = Ended (Became "grep" ["digenv"; "-i"; "path"]) st'
      /\ "grep" = "grep"
      /\ drop 1 ["digenv"; "-i"; "path"] = drop 1 ["digenv"; "-i"; "path"])
  /\ (exists st,
         res (run (calm no_env []) (build ["digenv"; "-i"; "path"]) []
                (boot (calm no_env []))) = Returned 4%nat st
         /\ length (spawned (digenv (calm no_env []) ["digenv"; "-i"; "path"]))
            = 4%nat)
  /\ (exists c, c ∈ spawned (digenv (calm no_env []) ["digenv"])
                /\ Forall execvp_free (did c)).
Proof.
  split; [|split].
  - assert (Hc : is_Some (spawned (digenv (calm no_env [])
                                     ["digenv"; "-i"; "path"]) !! 1%nat))
      by (vm_compute; eauto).
    destruct Hc as [c Hc].
    assert (Hf : exists st',
               fate c = Ended (Became "grep" ["digenv"; "-i"; "path"]) st').
    { pose proof Hc as Hc'. vm_compute in Hc'. injection Hc' as <-. eauto. }
    destruct Hf as [st' Hf]. exists c, st'.
    assert (Hargs : (1 < length ["digenv"; "-i"; "path"])%nat) by (cbn; lia).
    split; [exact Hargs|]. split; [exact Hc|]. split; [exact Hf|].
    exact (proj1 (proj2 (topology_follows_arguments (calm no_env [])
                           ["digenv"; "-i"; "path"])) c _ _ st' Hargs Hc Hf).
  - assert (H : exists st,
               res (run (calm no_env []) (build ["digenv"; "-i"; "path"]) []
                      (boot (calm no_env []))) = Returned 4%nat st)
      by (vm_compute; eauto).
    destruct H as [st H]. exists st. split; [exact H|].
    destruct (proj1 (topology_follows_arguments (calm no_env [])
                       ["digenv"; "-i"; "path"])) as (pipes & _ & _ & Hlen).
    exact (proj2 (Hlen 4%nat st H)).
  - pick_child 0%nat c Hc Hin. exists c. split; [exact Hin|].
    apply (proj2 (proj2 (topology_follows_arguments (calm no_env [])
                           ["digenv"])));
      [cbn; lia|exact Hin].
Defined.

(** ** The parent *)

Lemma printfs_app tr1 tr2 : printfs (tr1 ++ tr2) = printfs tr1 ++ printfs tr2.
Proof. apply List.filter_app. Qed.

Lemma printfs_none tr :
  Forall (fun e => is_printf e = false) tr -> printfs tr = [].
Proof.
  induction 1 as [|e tr He _ IH]; [reflexivity|].
  unfold printfs. cbn. rewrite He. exact IH.
Qed.

Lemma printfs_waits rs : printfs (ev_wait <$> rs) = [].
Proof. induction rs as [|r rs IH]; [reflexivity|exact IH]. Qed.

Lemma existsb_failed_none tr :
  Forall (fun e => failed e = false) tr -> existsb failed tr = false.
Proof.
  induction 1 as [|e tr He _ IH]; [reflexivity|]. cbn. rewrite He. exact IH.
Qed.

Section Parent.
Context (w : world) (argv : list string).

Lemma tail_run cur me st :
  run w (reap cur 0 ≫= exit (A := Empty_set)) me st =
  match res (run w (reap cur 0) me st) with
  | Returned ev st' =>
      Run (Ended (Exited ev) st')
        (trace (run w (reap cur 0) me st) ++ [EvExit ev]) []
  | Ended o st' => Run (Ended o st') (trace (run w (reap cur 0) me st)) []
  end.
Proof.
  rewrite run_bind. unfold then_run.
  destruct (reap_ends w cur 0 me st) as [-> _].
  destruct (res (run w (reap cur 0) me st)); cbn; rewrite ?app_nil_r;
    reflexivity.
Qed.

Lemma digenv_build_ended o st :
  res (run w (build argv) [] (boot w)) = Ended o st ->
  res (digenv w argv) = Ended o st /\ trace (digenv w argv) = trace (run w (build argv) [] (boot w)).
Proof.
  intros H. rewrite digenv_unfold. unfold then_run. rewrite H.
  cbn. rewrite app_nil_r. auto.
Qed.

Lemma digenv_build_returned cur st :
  res (run w (build argv) [] (boot w)) = Returned cur st ->
  res (digenv w argv)
  = res (run w (reap cur 0 ≫= exit (A := Empty_set)) [] st)
  /\ trace (digenv w argv)
     = trace (run w (build argv) [] (boot w)) ++ trace (run w (reap cur 0 ≫= exit (A := Empty_set)) [] st).
Proof.
  intros H. rewrite digenv_unfold. unfold then_run. rewrite H.
  cbn. auto.
Qed.

Lemma build_returned_facts cur st :
  res (run w (build argv) [] (boot w)) = Returned cur st ->
  nwaits st = 0%nat
  /\ Forall (fun e => failed e = false /\ is_printf e = false) (trace (run w (build argv) [] (boot w))).
Proof.
  intros H. destruct (build_children w argv (boot w)) as (pipes & _ & _ & Hres).
  cbv zeta in Hres. rewrite H in Hres.
  destruct Hres as (_ & _ & Hn & Hq & _). split; [exact Hn|exact Hq].
Qed.

(** A failed call in the parent ends it with a message and status 1. *)
Lemma parent_failure_reported :
  existsb failed (trace (digenv w argv)) = true ->
  reported (trace (digenv w argv)) = true.
Proof.
  intros Hf. destruct (res (run w (build argv) [] (boot w))) as [cur st|o st] eqn:Hrb.
  - destruct (digenv_build_returned cur st Hrb) as [_ Htr].
    destruct (build_returned_facts cur st Hrb) as [_ Hq].
    rewrite Htr in Hf |- *. rewrite tail_run in Hf |- *.
    destruct (reap_ends w cur 0 [] st) as [_ Hr].
    destruct (res (run w (reap cur 0) [] st)) as [ev st'|o st'];
      cbn [trace] in Hf |- *.
    + exfalso. rewrite !existsb_app in Hf.
      rewrite (existsb_failed_none (trace (run w (build argv) [] (boot w)))) in Hf
        by (eapply Forall_impl; [exact Hq|]; cbn; tauto).
      rewrite (existsb_failed_none _ (proj1 Hr)) in Hf. discriminate Hf.
    + apply reported_app, Hr.
  - destruct (digenv_build_ended o st Hrb) as [_ ->].
    destruct (build_children w argv (boot w)) as (pipes & _ & _ & Hres).
    cbv zeta in Hres. rewrite Hrb in Hres. apply Hres.
Qed.

(** The loop up to the first child that did not exit with status 0. *)
Lemma reap_to_first_failure cur st pre pid status post :
  nwaits st = 0%nat ->
  reaped w = pre ++ (pid, status) :: post ->
  Forall clean pre ->
  (length pre < cur)%nat ->
  exists st' n,
    cur = (length pre + S n)%nat
    /\ nwaits st' = length pre
    /\ reaped w !! nwaits st' = Some (pid, status)
    /\ run w (reap cur 0) [] st =
       prepend (ev_wait <$> pre)
         (then_run (fun ev => run w (reap n ev)) []
            (run w (reap_child 0) [] st')).
Proof.
  intros Hn Hre Hclean Hlen.
  destruct (reap_clean w pre cur [] st ((pid, status) :: post))
    as (st' & Hn' & _ & Hrun); [rewrite Hn; exact Hre|exact Hclean|lia|].
  destruct (cur - length pre)%nat as [|n] eqn:Hcur; [lia|].
  exists st', n.
  split; [lia|]. split; [lia|]. split.
  - rewrite Hn', Hn, Nat.add_0_r, Hre.
    rewrite lookup_app_r by lia. rewrite Nat.sub_diag. reflexivity.
  - rewrite Hrun, run_reap_S. reflexivity.
Qed.
End Parent.

Section FirstFailure.
Context (w : world).

Lemma then_run_returned {A B : Type} (h : A -> sem B) me a st tr :
  then_run h me (Run (Returned a st) tr []) = prepend tr (h a me st).
Proof. reflexivity. Qed.

Lemma prepend_prepend {A : Type} tr1 tr2 (r : run_result A) :
  prepend tr1 (prepend tr2 r) = prepend (tr1 ++ tr2) r.
Proof. unfold prepend. cbn. rewrite app_assoc. reflexivity. Qed.

(** The first child that did not exit with status 0 exited with another
    status: it is reported and its status recorded. *)
Lemma reap_first_exit_failure cur st pre pid status post :
  nwaits st = 0%nat ->
  reaped w = pre ++ (pid, status) :: post ->
  Forall clean pre ->
  (length pre < cur)%nat ->
  WIFEXITED status = true ->
  WEXITSTATUS status <> 0 ->
  exists st' n,
    cur = (length pre + S n)%nat
    /\ nwaits st' = S (length pre)
    /\ run w (reap cur 0) [] st =
       prepend ((ev_wait <$> pre)
                ++ [EvWait (Z.pos pid) status;
                    EvPrintf (exit_diag (WEXITSTATUS status) (Z.pos pid))])
         (run w (reap n (WEXITSTATUS status)) [] st').
Proof.
  intros Hn Hre Hclean Hlen Hex Hst.
  destruct (reap_to_first_failure w cur st pre pid status post
              Hn Hre Hclean Hlen) as (st' & n & Hcur & Hn' & Hw & Hrun).
  rewrite (reap_child_run w 0 [] st' pid status Hw) in Hrun.
  cbv zeta in Hrun. rewrite Hex in Hrun.
  rewrite decide_True in Hrun by (split; [reflexivity|congruence]).
  rewrite then_run_returned, prepend_prepend in Hrun.
  eexists _, n. split; [exact Hcur|]. split; [|exact Hrun].
  cbn. rewrite Hn'. reflexivity.
Qed.

(** The first child that did not exit with status 0 was killed by a
    signal: it is reported, and the recorded status stays 0. *)
Lemma reap_first_signal cur st pre pid status post :
  nwaits st = 0%nat ->
  reaped w = pre ++ (pid, status) :: post ->
  Forall clean pre ->
  (length pre < cur)%nat ->
  WIFEXITED status = false ->
  WIFSIGNALED status = true ->
  exists st' n,
    run w (reap cur 0) [] st =
    prepend ((ev_wait <$> pre)
             ++ [EvWait (Z.pos pid) status;
                 EvPrintf (signal_diag (WTERMSIG status) (Z.pos pid))])
      (run w (reap n 0) [] st').
Proof.
  intros Hn Hre Hclean Hlen Hex Hsig.
  destruct (reap_to_first_failure w cur st pre pid status post
              Hn Hre Hclean Hlen) as (st' & n & Hcur & Hn' & Hw & Hrun).
  rewrite (reap_child_run w 0 [] st' pid status Hw) in Hrun.
  cbv zeta in Hrun. rewrite Hex in Hrun.
  rewrite decide_True in Hrun by (split; [reflexivity|assumption]).
  rewrite then_run_returned, prepend_prepend in Hrun.
  eexists _, n. exact Hrun.
Qed.

Lemma tail_trace_incl cur me st e :
  e ∈ trace (run w (reap cur 0) me st) ->
  e ∈ trace (run w (reap cur 0 ≫= exit (A := Empty_set)) me st).
Proof.
  intros H. rewrite tail_run.
  destruct (res (run w (reap cur 0) me st)); cbn [trace]; [|exact H].
  apply elem_of_app. left. exact H.
Qed.
End FirstFailure.

(** ** Diagnostics *)

(** C8 as stated fails: the message about a failing child is written with
    [printf], to the standard output; nothing goes to the standard error. *)
Lemma child_failure_goes_to_stdout :
  let r := digenv (calm no_env [(103%positive, 256); (104%positive, 0);
                                (107%positive, 0)]) ["digenv"] in
  output_on Stderr (trace r) = []
  /\ output_on Stdout (trace r) = [EvPrintf (exit_diag 1 103)]
  /\ exit_status (res r) = Some 1.
Proof. vm_compute. repeat split. Qed.

(** C8, as the code has it: a failed call ends the parent with a [perror]
    message (standard error) and status 1; a child with a failed call has
    turned into its program all the same or has ended like that; and the
    first child that did not exit with status 0, whether it exited with
    another status or was killed by a signal, is reported with [printf]
    (standard output) in a message that carries its pid. *)
Theorem failures_are_reported w argv :
  (existsb failed (trace (digenv w argv)) = true ->
   reported (trace (digenv w argv)) = true)
  /\ (forall c,
        c ∈ spawned (digenv w argv) ->
        existsb failed (did c) = true ->
        (exists f v st, fate c = Ended (Became f v) st)
        \/ reported (did c) = true)
  /\ (forall cur st pre pid status post,
        res (run w (build argv) [] (boot w)) = Returned cur st ->
        reaped w = pre ++ (pid, status) :: post ->
        Forall clean pre ->
        (length pre < cur)%nat ->
        (WIFEXITED status = true ->
         WEXITSTATUS status <> 0 ->
         EvPrintf (exit_diag (WEXITSTATUS status) (Z.pos pid))
         ∈ trace (digenv w argv))
        /\ (WIFEXITED status = false ->
            WIFSIGNALED status = true ->
            EvPrintf (signal_diag (WTERMSIG status) (Z.pos pid))
            ∈ trace (digenv w argv))).
Proof.
  split; [apply parent_failure_reported|]. split.
  - intros c Hin _.
    destruct (child_fate w argv c Hin)
      as [[(f & v & st & Hfate & _) | (st & _ & Hrep)] _]; eauto.
  - intros cur st pre pid status post Hret Hre Hclean Hlen.
    destruct (build_returned_facts w argv cur st Hret) as [Hn _].
    destruct (digenv_build_returned w argv cur st Hret) as [_ ->].
    split; intros Hex Hst; apply elem_of_app; right; apply tail_trace_incl.
    + destruct (reap_first_exit_failure w cur st pre pid status post
                  Hn Hre Hclean Hlen Hex Hst) as (st' & n & _ & _ & ->).
      cbn [prepend trace]. rewrite !elem_of_app, !elem_of_cons. tauto.
    + destruct (reap_first_signal w cur st pre pid status post
                  Hn Hre Hclean Hlen Hex Hst) as (st' & n & ->).
      cbn [prepend trace]. rewrite !elem_of_app, !elem_of_cons. tauto.
Qed.

Lemma failures_are_reported_witness :
  let w := faulty [([], 5%nat); ([4%nat], 6%nat)]
             no_env [(103%positive, 0); (104%positive, 9)] in
  existsb failed (trace (digenv w ["digenv"])) = true
  /\ reported (trace (digenv w ["digenv"])) = true
  /\ (exists c, c ∈ spawned (digenv w ["digenv"])
                /\ existsb failed (did c) = true
                /\ ((exists f v st, fate c = Ended (Became f v) st)
                    \/ reported (did c) = true))
  /\ exists st,
       res (run (calm no_env [(103%positive, 0); (104%positive, 9)])
              (build ["digenv"]) []
              (boot (calm no_env [(103%positive, 0); (104%positive, 9)])))
       = Returned 3%nat st
       /\ EvPrintf (signal_diag (WTERMSIG 9) (Z.pos 104))
          ∈ trace (digenv (calm no_env [(103%positive, 0); (104%positive, 9)])
                     ["digenv"]).
Proof.
  intros w.
  assert (Hf : existsb failed (trace (digenv w ["digenv"])) = true)
    by (vm_compute; reflexivity).
  split; [exact Hf|].
  split; [exact (proj1 (failures_are_reported w ["digenv"]) Hf)|].
  split.
  - pick_child 1%nat c Hc Hin. exists c.
    assert (Hfc : existsb failed (did c) = true)
      by (rewrite <- Hc; vm_compute; reflexivity).
    split; [exact Hin|]. split; [exact Hfc|].
    exact (proj1 (proj2 (failures_are_reported w ["digenv"])) c Hin Hfc).
  - set (w' := calm no_env [(103%positive, 0); (104%positive, 9)]).
    assert (H : exists st,
               res (run w' (build ["digenv"]) [] (boot w')) = Returned 3%nat st)
      by (vm_compute; eauto).
    destruct H as [st H]. exists st. split; [exact H|].
    refine (proj2 (proj2 (proj2 (failures_are_reported w' ["digenv"])) 3%nat st
                     [(103%positive, 0)] 104%positive 9 [] H _ _ _) _ _).
    + reflexivity.
    + repeat constructor.
    + cbn. lia.
    + reflexivity.
    + reflexivity.
Defined.

(** ** The aggregate status *)

(** C1 fails on the code: the second child reaped is killed by signal 9 and
    no child fails otherwise; the signal is reported, but line 289 compares
    where it should assign and the program exits with status 0. *)
Theorem signal_termination_leaves_status_0 :
  let r := digenv (calm no_env [(103%positive, 0); (104%positive, 9);
                                (107%positive, 0)]) ["digenv"] in
  WIFEXITED 9 = false
  /\ WIFSIGNALED 9 = true
  /\ WTERMSIG 9 = 9
  /\ printfs (trace r) = [EvPrintf (signal_diag 9 104)]
  /\ exit_status (res r) = Some 0.
Proof. vm_compute. repeat split. Qed.

(** C2 as stated fails: process 104 fails after process 103 has, and no
    message about it is printed. *)
Lemma later_failure_is_not_reported :
  let r := digenv (calm no_env [(103%positive, 256); (104%positive, 512);
                                (107%positive, 0)]) ["digenv"] in
  WIFEXITED 512 = true
  /\ WEXITSTATUS 512 = 2
  /\ printfs (trace r) = [EvPrintf (exit_diag 1 103)]
  /\ exit_status (res r) = Some 1.
Proof. vm_compute. repeat split. Qed.

(** C2, as the code has it: when the first child that did not exit with
    status 0 exited with another status, that status is the exit status of
    the program, whatever is reaped later, and the message about that child
    is the only one printed. *)
Theorem first_exit_failure_decides w argv cur st pre pid status post :
  res (run w (build argv) [] (boot w)) = Returned cur st ->
  reaped w = pre ++ (pid, status) :: post ->
  Forall clean pre ->
  WIFEXITED status = true ->
  WEXITSTATUS status <> 0 ->
  (length pre < cur <= length (reaped w))%nat ->
  exit_status (res (digenv w argv)) = Some (WEXITSTATUS status)
  /\ printfs (trace (digenv w argv))
     = [EvPrintf (exit_diag (WEXITSTATUS status) (Z.pos pid))].
Proof.
  intros Hret Hre Hclean Hex Hst [Hlen Hall].
  destruct (build_returned_facts w argv cur st Hret) as [Hn Hq].
  destruct (digenv_build_returned w argv cur st Hret) as [-> ->].
  destruct (reap_first_exit_failure w cur st pre pid status post
              Hn Hre Hclean Hlen Hex Hst) as (st' & n & Hcur & Hn' & Hrun).
  destruct (reap_recorded w n (WEXITSTATUS status) [] st' Hst)
    as [st'' Hrest]; [lia|].
  rewrite Hrest in Hrun. rewrite tail_run, Hrun. cbn [prepend res trace].
  split; [reflexivity|].
  rewrite !printfs_app, printfs_waits, printfs_waits.
  rewrite (printfs_none (trace _))
    by (eapply Forall_impl; [exact Hq|]; cbn; tauto).
  reflexivity.
Qed.

Lemma first_exit_failure_decides_witness :
  let w := calm no_env [(103%positive, 0); (104%positive, 512);
                        (107%positive, 256)] in
  (exists st, res (run w (build ["digenv"]) [] (boot w)) = Returned 3%nat st)
  /\ exit_status (res (digenv w ["digenv"])) = Some (WEXITSTATUS 512)
  /\ printfs (trace (digenv w ["digenv"]))
     = [EvPrintf (exit_diag (WEXITSTATUS 512) (Z.pos 104))].
Proof.
  intros w.
  assert (H : exists st,
             res (run w (build ["digenv"]) [] (boot w)) = Returned 3%nat st)
    by (vm_compute; eauto).
  destruct H as [st H]. split; [exists st; exact H|].
  refine (first_exit_failure_decides w ["digenv"] 3%nat st
            [(103%positive, 0)] 104%positive 512 [(107%positive, 256)]
            H _ _ _ _ _).
  - reflexivity.
  - repeat constructor.
  - reflexivity.
  - vm_compute. discriminate.
  - cbn. lia.
Defined.

(** ** Descriptors held by the parent and by the stages *)

Lemma boot_fresh w :
  0 ∈ open_at_start w -> 1 ∈ open_at_start w -> fresh_start (boot w).
Proof.
  intros H0 H1. split; [split; apply boot_open; assumption|].
  split; [reflexivity|]. intros fd p e H%boot_lookup. discriminate H.
Qed.

Section Tables.
Context (w : world) (argv : list string).

Lemma continue_born {A B : Type} (h : A -> sem B) blks (cs : list (proc A)) :
  Forall2 (behaves w) blks cs ->
  Forall2 (fun c c' => born c' = born c) cs (flat_map (continue_proc h) cs).
Proof.
  induction 1 as [|blk c blks cs (o & st & Hfate & _) _ IH]; [constructor|].
  cbn [flat_map]. unfold continue_proc at 1. rewrite Hfate.
  cbn [continue spawned res trace app]. constructor; [reflexivity|exact IH].
Qed.

(** The children of the whole program are born with the pipe ends of the
    plan. *)
Lemma digenv_born :
  0 ∈ open_at_start w -> 1 ∈ open_at_start w ->
  exists pipes,
    Forall2 (behaves w)
      (take (length (spawned (digenv w argv))) (plan argv pipes))
      (spawned (digenv w argv))
    /\ Forall2 (fun open c => layout pipes open (fdt (born c))
                              /\ std (fdt (born c)))
         (take (length (spawned (digenv w argv))) (born_open argv))
         (spawned (digenv w argv)).
Proof.
  intros H0 H1.
  destruct (build_children w argv (boot w)) as (pipes & Hch & Hborn & _).
  cbv zeta in Hch, Hborn. specialize (Hborn (boot_fresh w H0 H1)).
  exists pipes.
  pose proof (behaves_continue w
                (fun cur => run w (reap cur 0 ≫= exit (A := Empty_set)))
                _ _ Hch) as Hch'.
  pose proof (continue_born
                (fun cur => run w (reap cur 0 ≫= exit (A := Empty_set)))
                _ _ Hch) as Hsame.
  rewrite <- digenv_spawned in Hch', Hsame.
  assert (Hlen : length (spawned (digenv w argv))
                 = length (spawned (run w (build argv) [] (boot w)))).
  { apply Forall2_length in Hch, Hch'. congruence. }
  rewrite Hlen. split; [exact Hch'|].
  apply Forall2_same_length_lookup. split.
  - apply Forall2_length in Hborn, Hsame. congruence.
  - intros i open c' Hopen Hc'.
    destruct (Forall2_lookup_r _ _ _ _ _ Hsame Hc') as (c & Hc & Heq).
    rewrite Heq.
    exact (Forall2_lookup_lr _ _ _ _ _ _ Hborn Hopen Hc).
Qed.
End Tables.

(** C5 fails on the code: run without arguments, the parent closes the
    first two pipes only and starts to wait with both ends of the third
    (descriptors 7 and 8) open. *)
Theorem third_pipe_left_open_without_arguments :
  held [3; 4; 5; 6; 7; 8] <$> wait_table (calm no_env []) ["digenv"]
  = Some [None; None; None; None;
          Some (PipeEnd 2 ReadEnd); Some (PipeEnd 2 WriteEnd)].
Proof. vm_compute. reflexivity. Qed.

(** Run with arguments, the parent does close every pipe end before it
    starts to wait. *)
Lemma parent_closes_all_with_arguments w argv cur st :
  0 ∈ open_at_start w -> 1 ∈ open_at_start w ->
  (1 < length argv)%nat ->
  res (run w (build argv) [] (boot w)) = Returned cur st ->
  forall fd p e, fdt st !! fd <> Some (PipeEnd p e).
Proof.
  intros H0 H1 Hargs Hret fd p e.
  destruct (build_children w argv (boot w)) as (pipes & _ & _ & Hres).
  cbv zeta in Hres. rewrite Hret in Hres.
  destruct Hres as (_ & _ & _ & _ & Hlay).
  destruct (Hlay (boot_fresh w H0 H1)) as [[_ Hl] [Hs0 Hs1]].
  unfold left_open in Hl. rewrite decide_True in Hl by lia.
  destruct (decide (fd = 0)) as [->|Hf0]; [rewrite Hs0; discriminate|].
  destruct (decide (fd = 1)) as [->|Hf1]; [rewrite Hs1; discriminate|].
  rewrite (Hl fd p e Hf0 Hf1). intros [Hin _].
  apply elem_of_nil in Hin. exact Hin.
Qed.

(** C6 as stated fails: the filter stage turns into grep holding, besides
    its two standard streams, the descriptors 3 and 6 it duplicated onto
    them and both ends of the third pipe (7 and 8). *)
Lemma filter_keeps_other_ends_open :
  (fun c => held [0; 1; 3; 4; 5; 6; 7; 8] <$> exec_table c)
  <$> spawned (digenv (calm no_env []) ["digenv"; "PATH"]) !! 1%nat
  = Some (Some [Some (PipeEnd 0 ReadEnd); Some (PipeEnd 1 WriteEnd);
                Some (PipeEnd 0 ReadEnd); None; None;
                Some (PipeEnd 1 WriteEnd);
                Some (PipeEnd 2 ReadEnd); Some (PipeEnd 2 WriteEnd)]).
Proof. vm_compute. reflexivity. Qed.

(** C6, as the code has it: a stage that turns into its program has the
    read end of the pipe before it as descriptor 0 and holds no write end of
    that pipe, has the write end of the pipe after it as descriptor 1 and
    holds no read end of that pipe, and holds the ends of every other pipe
    exactly as it was born with them. *)
Theorem stage_closes_unused_ends w argv i c f v st' :
  0 ∈ open_at_start w -> 1 ∈ open_at_start w ->
  spawned (digenv w argv) !! i = Some c ->
  fate c = Ended (Became f v) st' ->
  exists inp outp,
    wiring argv !! i = Some (inp, outp)
    /\ tidy inp outp (fdt (born c)) (fdt st').
Proof.
  intros H0 H1 Hc Hfate.
  destruct (digenv_born w argv H0 H1) as (pipes & Hch & Hborn).
  destruct (Forall2_lookup_r _ _ _ _ _ Hch Hc) as (blk & Hblk & Hb).
  destruct (Forall2_lookup_r _ _ _ _ _ Hborn Hc) as (open & Hopen & Hlay & Hstd).
  apply lookup_take_Some in Hblk as [Hblk _].
  apply lookup_take_Some in Hopen as [Hopen _].
  destruct Hb as (o & st & Hfate' & Hres & _).
  rewrite Hfate in Hfate'. injection Hfate' as <- <-.
  unfold plan in Hblk. unfold born_open in Hopen. unfold wiring.
  destruct (decide (Z.of_nat (length argv) > 1));
    destruct i as [|[|[|[|i]]]]; try discriminate Hblk;
    injection Hblk as <-; injection Hopen as <-;
    do 2 eexists; (split; [reflexivity|]).
  - eapply stage_printenv_tidy; [exact Hlay|exact Hstd|in_ends..|exact Hres].
  - eapply (stage_grep_tidy w argv pipes 1);
      [lia|exact Hlay|exact Hstd|in_ends..|exact Hres].
  - eapply (stage_sort_tidy w pipes 2);
      [lia|exact Hlay|exact Hstd|in_ends..|exact Hres].
  - eapply (stage_pager_tidy w pipes 3);
      [exact Hlay|exact Hstd|in_ends..|exact Hres].
  - eapply stage_printenv_tidy; [exact Hlay|exact Hstd|in_ends..|exact Hres].
  - eapply (stage_sort_tidy w pipes 1);
      [lia|exact Hlay|exact Hstd|in_ends..|exact Hres].
  - eapply (stage_pager_tidy w pipes 2);
      [exact Hlay|exact Hstd|in_ends..|exact Hres].
Qed.

Lemma stage_closes_unused_ends_witness :
  exists c st',
    0 ∈ open_at_start (calm no_env [])
    /\ 1 ∈ open_at_start (calm no_env [])
    /\ spawned (digenv (calm no_env []) ["digenv"; "PATH"]) !! 1%nat = Some c
    /\ fate c = Ended (Became "grep" ["digenv"; "PATH"]) st'
    /\ exists inp outp,
         wiring ["digenv"; "PATH"] !! 1%nat = Some (inp, outp)
         /\ tidy inp outp (fdt (born c)) (fdt st').
Proof.
  assert (H0 : 0 ∈ open_at_start (calm no_env []))
    by (apply list_elem_of_In; cbn; tauto).
  assert (H1 : 1 ∈ open_at_start (calm no_env []))
    by (apply list_elem_of_In; cbn; tauto).
  assert (Hc : is_Some (spawned (digenv (calm no_env []) ["digenv"; "PATH"])
                          !! 1%nat)) by (vm_compute; eauto).
  destruct Hc as [c Hc].
  assert (Hf : exists st', fate c = Ended (Became "grep" ["digenv"; "PATH"]) st').
  { pose proof Hc as Hc'. vm_compute in Hc'. injection Hc' as <-. eauto. }
  destruct Hf as [st' Hf]. exists c, st'.
  repeat (split; [assumption|]).
  exact (stage_closes_unused_ends _ _ _ c _ _ st' H0 H1 Hc Hf).
Defined.

(** * Further properties of the program *)

(** ** The wait loop as a whole *)

Lemma WEXITSTATUS_range status : 0 <= WEXITSTATUS status <= 255.
Proof.
  unfold WEXITSTATUS. rewrite Z.shiftr_land.
  change (Z.shiftr 65280 8) with (Z.ones 8).
  rewrite Z.land_ones by lia.
  pose proof (Z.mod_pos_bound (Z.shiftr status 8) (2 ^ 8)). lia.
Qed.

Section ReapingAll.
Context (w : world).

Lemma reap_answers n : forall ev me st,
  (n + nwaits st <= length (reaped w))%nat ->
  exists st',
    res (run w (reap n ev) me st)
    = Returned (if decide (ev = 0)
                then first_exit_code (take n (drop (nwaits st) (reaped w)))
                else ev) st'
    /\ printfs (trace (run w (reap n ev) me st))
       = (if decide (ev = 0)
          then diagnostics (take n (drop (nwaits st) (reaped w)))
          else []).
Proof.
  induction n as [|n IH]; intros ev me st Hlen.
  - exists st. cbn. destruct (decide (ev = 0)); subst; auto.
  - destruct (lookup_lt_is_Some_2 (reaped w) (nwaits st)) as [[pid status] Hw];
      [lia|].
    rewrite run_reap_S, (reap_child_run w ev me st pid status Hw). cbv zeta.
    rewrite (drop_S _ _ _ Hw). cbn [take first_exit_code diagnostics fst snd].
    destruct (WIFEXITED status) eqn:Hex;
      [destruct (decide (0 = ev /\ 0 <> WEXITSTATUS status)) as [[<- Hst]|Hno]
      |destruct (decide (0 = ev /\ WIFSIGNALED status = true)) as [[<- Hsig]|Hno]];
      rewrite then_run_returned; cbn [prepend res trace];
      rewrite printfs_app.
    + destruct (IH (WEXITSTATUS status) me
                  (tick (after_wait st) (fdt (after_wait st))))
        as (st' & Hres & Hpr); [cbn; lia|].
      rewrite decide_False in Hres by congruence.
      rewrite decide_False in Hpr by congruence.
      exists st'. rewrite Hres, Hpr.
      rewrite !decide_True by reflexivity.
      destruct (Z.eqb_spec (WEXITSTATUS status) 0) as [E|E]; [congruence|].
      cbn. auto.
    + destruct (IH ev me (after_wait st)) as (st' & Hres & Hpr); [cbn; lia|].
      exists st'. rewrite Hres, Hpr. cbn [nwaits after_wait].
      destruct (decide (ev = 0)) as [->|Hev]; [|auto].
      destruct (Z.eqb_spec (WEXITSTATUS status) 0) as [E|E];
        [cbn; auto|exfalso; apply Hno; split; congruence].
    + destruct (IH 0 me (tick (after_wait st) (fdt (after_wait st))))
        as (st' & Hres & Hpr); [cbn; lia|].
      rewrite decide_True in Hres by reflexivity.
      rewrite decide_True in Hpr by reflexivity.
      exists st'. rewrite Hres, Hpr. cbn [nwaits after_wait tick].
      rewrite !decide_True by reflexivity. rewrite Hsig. cbn. auto.
    + destruct (IH ev me (after_wait st)) as (st' & Hres & Hpr); [cbn; lia|].
      exists st'. rewrite Hres, Hpr. cbn [nwaits after_wait].
      destruct (decide (ev = 0)) as [->|Hev]; [|auto].
      destruct (WIFSIGNALED status) eqn:Hsig;
        [exfalso; apply Hno; split; congruence|]. cbn. auto.
Qed.

(** With fewer children to report than the loop waits for, [wait] fails in
    the end. *)
Lemma reap_runs_out n : forall ev me st,
  (nwaits st <= length (reaped w) < n + nwaits st)%nat ->
  exists st' pre,
    run w (reap n ev) me st
    = Run (Ended (Exited 1) st')
        (pre ++ [EvWait (-1) 0;
                 EvPerror "@digenv: wait() returned unexpectedly"; EvExit 1])
        []
    /\ length (List.filter is_wait pre) = (length (reaped w) - nwaits st)%nat.
Proof.
  induction n as [|n IH]; intros ev me st Hlen; [lia|].
  rewrite run_reap_S.
  destruct (reaped w !! nwaits st) as [[pid status]|] eqn:Hw.
  - apply lookup_lt_Some in Hw as Hlt.
    rewrite (reap_child_run w ev me st pid status Hw). cbv zeta.
    destruct (WIFEXITED status);
      [destruct (decide (0 = ev /\ 0 <> WEXITSTATUS status))
      |destruct (decide (0 = ev /\ WIFSIGNALED status = true))];
      rewrite then_run_returned;
      match goal with
      | |- context [run w (reap n ?e) me ?s] =>
          destruct (IH e me s) as (st' & pre & -> & Hn); [cbn; lia|]
      end;
      unfold prepend; cbn [res trace spawned nwaits after_wait tick] in *;
      rewrite app_assoc; eexists _, _; (split; [reflexivity|]);
      rewrite List.filter_app, length_app, Hn; cbn; lia.
  - rewrite (reap_child_none w ev me st Hw). apply lookup_ge_None in Hw.
    eexists _, []. split; [reflexivity|]. cbn. lia.
Qed.

Lemma reap_calls n : forall ev me st,
  forallb reaper_call (trace (run w (reap n ev) me st)) = true.
Proof.
  induction n as [|n IH]; intros ev me st; [reflexivity|].
  rewrite run_reap_S.
  destruct (reaped w !! nwaits st) as [[pid status]|] eqn:Hw.
  - rewrite (reap_child_run w ev me st pid status Hw). cbv zeta.
    destruct (WIFEXITED status);
      [destruct (decide (0 = ev /\ 0 <> WEXITSTATUS status))
      |destruct (decide (0 = ev /\ WIFSIGNALED status = true))];
      rewrite then_run_returned; cbn [prepend trace]; rewrite forallb_app, IH;
      reflexivity.
  - rewrite (reap_child_none w ev me st Hw). reflexivity.
Qed.

Lemma reap_range n : forall ev me st ev' st',
  0 <= ev <= 255 ->
  res (run w (reap n ev) me st) = Returned ev' st' ->
  0 <= ev' <= 255.
Proof.
  induction n as [|n IH]; intros ev me st ev' st' Hev.
  - cbn. intros [= <- <-]. exact Hev.
  - rewrite run_reap_S.
    destruct (reaped w !! nwaits st) as [[pid status]|] eqn:Hw.
    + rewrite (reap_child_run w ev me st pid status Hw). cbv zeta.
      pose proof (WEXITSTATUS_range status).
      destruct (WIFEXITED status);
        [destruct (decide (0 = ev /\ 0 <> WEXITSTATUS status))
        |destruct (decide (0 = ev /\ WIFSIGNALED status = true))];
        rewrite then_run_returned; cbn [prepend res]; apply IH; assumption.
    + rewrite (reap_child_none w ev me st Hw). discriminate.
Qed.

Lemma tail_calls cur me st :
  forallb reaper_call
    (trace (run w (reap cur 0 ≫= exit (A := Empty_set)) me st)) = true.
Proof.
  rewrite tail_run. pose proof (reap_calls cur 0 me st) as H.
  destruct (res (run w (reap cur 0) me st)); cbn [trace]; [|exact H].
  rewrite forallb_app, H. reflexivity.
Qed.
End ReapingAll.

(** ** The exit status and the messages, for every order of reaping *)

(** X1: once the stages are created and [wait] has a child to report each
    time, the exit status of the program is the exit status of the first
    child reaped that exited with another status than 0, and 0 when there
    is none: children killed by signals, wherever they come in the order,
    and children reaped later never change it. *)
Theorem exit_status_is_first_exit_code w argv cur st :
  res (run w (build argv) [] (boot w)) = Returned cur st ->
  (cur <= length (reaped w))%nat ->
  exit_status (res (digenv w argv))
  = Some (first_exit_code (take cur (reaped w))).
Proof.
  intros Hret Hlen.
  destruct (build_returned_facts w argv cur st Hret) as [Hn _].
  destruct (digenv_build_returned w argv cur st Hret) as [-> _].
  rewrite tail_run.
  destruct (reap_answers w cur 0 [] st) as (st' & Hres & _); [lia|].
  rewrite Hres, Hn, drop_0. reflexivity.
Qed.

Lemma exit_status_is_first_exit_code_witness :
  let w := calm no_env [(103%positive, 9); (104%positive, 512);
                        (107%positive, 256)] in
  (exists st, res (run w (build ["digenv"]) [] (boot w)) = Returned 3%nat st)
  /\ (3 <= length (reaped w))%nat
  /\ first_exit_code (take 3 (reaped w)) = 2
  /\ exit_status (res (digenv w ["digenv"]))
     = Some (first_exit_code (take 3 (reaped w))).
Proof.
  intros w.
  assert (H : exists st,
             res (run w (build ["digenv"]) [] (boot w)) = Returned 3%nat st)
    by (vm_compute; eauto).
  destruct H as [st H]. split; [exists st; exact H|].
  assert (Hlen : (3 <= length (reaped w))%nat) by (cbn; lia).
  split; [exact Hlen|]. split; [reflexivity|].
  exact (exit_status_is_first_exit_code w ["digenv"] 3%nat st H Hlen).
Defined.

(** X2: under the same conditions the messages the program prints are, in
    the order of reaping, one for every child killed by a signal before the
    first child that exited with another status than 0, and one for that
    child; nothing is printed about any child reaped after it. *)
Theorem messages_stop_at_first_exit_code w argv cur st :
  res (run w (build argv) [] (boot w)) = Returned cur st ->
  (cur <= length (reaped w))%nat ->
  printfs (trace (digenv w argv)) = diagnostics (take cur (reaped w)).
Proof.
  intros Hret Hlen.
  destruct (build_returned_facts w argv cur st Hret) as [Hn Hq].
  destruct (digenv_build_returned w argv cur st Hret) as [_ ->].
  rewrite tail_run.
  destruct (reap_answers w cur 0 [] st) as (st' & Hres & Hpr); [lia|].
  rewrite Hres. cbn [trace]. rewrite !printfs_app, Hpr, Hn, drop_0.
  rewrite (printfs_none (trace _))
    by (eapply Forall_impl; [exact Hq|]; cbn; tauto).
  cbn. apply app_nil_r.
Qed.

Lemma messages_stop_at_first_exit_code_witness :
  let w := calm no_env [(103%positive, 9); (104%positive, 512);
                        (107%positive, 11)] in
  (exists st, res (run w (build ["digenv"]) [] (boot w)) = Returned 3%nat st)
  /\ (3 <= length (reaped w))%nat
  /\ diagnostics (take 3 (reaped w))
     = [EvPrintf (signal_diag 9 103); EvPrintf (exit_diag 2 104)]
  /\ printfs (trace (digenv w ["digenv"])) = diagnostics (take 3 (reaped w)).
Proof.
  intros w.
  assert (H : exists st,
             res (run w (build ["digenv"]) [] (boot w)) = Returned 3%nat st)
    by (vm_compute; eauto).
  destruct H as [st H]. split; [exists st; exact H|].
  assert (Hlen : (3 <= length (reaped w))%nat) by (cbn; lia).
  split; [exact Hlen|]. split; [reflexivity|].
  exact (messages_stop_at_first_exit_code w ["digenv"] 3%nat st H Hlen).
Defined.

(** X3: however it is started and whatever fails, the program ends by
    calling [exit], never by turning into another program, and its exit
    status lies between 0 and 255. *)
Theorem exit_status_in_range w argv :
  exists status st,
    res (digenv w argv) = Ended (Exited status) st /\ 0 <= status <= 255.
Proof.
  destruct (res (run w (build argv) [] (boot w))) as [cur st|o st] eqn:Hrb.
  - destruct (digenv_build_returned w argv cur st Hrb) as [-> _].
    rewrite tail_run.
    destruct (reap_ends w cur 0 [] st) as [_ Hr].
    destruct (res (run w (reap cur 0) [] st)) as [ev st'|o st'] eqn:Hres.
    + exists ev, st'. split; [reflexivity|].
      apply (reap_range w cur 0 [] st ev st'); [lia|exact Hres].
    + destruct Hr as [-> _]. exists 1, st'. split; [reflexivity|lia].
  - destruct (digenv_build_ended w argv o st Hrb) as [-> _].
    destruct (build_children w argv (boot w)) as (pipes & _ & _ & Hres).
    cbv zeta in Hres. rewrite Hrb in Hres. destruct Hres as [-> _].
    exists 1, st. split; [reflexivity|lia].
Qed.

(** ** What the parent calls *)

Section BuilderCalls.
Context (w : world).

(** What [build] calls, on every path through it. *)
Lemma build_calls argv st :
  let tr := trace (run w (build argv) [] st) in
  Forall (parent_call (pipe_fds tr)) tr
  /\ existsb is_wait tr = false
  /\ (existsb is_fork tr = true ->
      exists p0 p1 p2 rest,
        tr = EvPipe 0 p0 :: EvPipe 0 p1 :: EvPipe 0 p2 :: rest
        /\ existsb is_pipe rest = false).
Proof.
  cbv zeta. walk_build.
  all: cbn.
  all: split; [repeat constructor|].
  all: split; [reflexivity|].
  all: intros Hfork; first [discriminate Hfork | do 4 eexists; split; reflexivity].
Qed.
End BuilderCalls.

Lemma filter_none {A : Type} (f : A -> bool) l :
  existsb f l = false -> List.filter f l = [].
Proof.
  induction l as [|a l IH]; [reflexivity|]. cbn.
  intros [-> H]%orb_false_elim. exact (IH H).
Qed.

Lemma existsb_none {A : Type} (f g : A -> bool) l :
  (forall a, g a = true -> f a = false) ->
  forallb g l = true -> existsb f l = false.
Proof.
  intros Hfg. induction l as [|a l IH]; [reflexivity|]. cbn.
  intros [Ha Hl]%andb_prop. rewrite (Hfg a Ha). exact (IH Hl).
Qed.

Lemma reaper_not_build_failed e : reaper_call e = true -> build_failed e = false.
Proof.
  unfold build_failed. destruct e; cbn; try discriminate; intros _;
    rewrite ?andb_false_r; reflexivity.
Qed.

Lemma reaper_not_fork e : reaper_call e = true -> is_fork e = false.
Proof. destruct e; cbn; try discriminate; reflexivity. Qed.

Lemma reaper_not_pipe e : reaper_call e = true -> is_pipe e = false.
Proof. destruct e; cbn; try discriminate; reflexivity. Qed.

(** X4: when [wait] has fewer children to report than stages were created,
    the program reaps those there are, then reports the failed [wait] with
    [perror] and exits with status 1, whatever status it had recorded from
    the children reaped before. *)
Theorem missing_child_ends_with_status_1 w argv cur st :
  res (run w (build argv) [] (boot w)) = Returned cur st ->
  (length (reaped w) < cur)%nat ->
  exit_status (res (digenv w argv)) = Some 1
  /\ exists pre,
       trace (digenv w argv)
       = pre ++ [EvWait (-1) 0;
                 EvPerror "@digenv: wait() returned unexpectedly"; EvExit 1]
       /\ length (List.filter is_wait pre) = length (reaped w).
Proof.
  intros Hret Hlen.
  destruct (build_returned_facts w argv cur st Hret) as [Hn Hq].
  destruct (digenv_build_returned w argv cur st Hret) as [-> ->].
  rewrite tail_run.
  destruct (reap_runs_out w cur 0 [] st) as (st' & pre & Hrun & Hpre); [lia|].
  rewrite Hrun. cbn [res trace exit_status]. split; [reflexivity|].
  exists (trace (run w (build argv) [] (boot w)) ++ pre).
  split; [apply app_assoc|].
  rewrite List.filter_app, length_app, Hpre, Hn, Nat.sub_0_r.
  destruct (build_calls w argv (boot w)) as (_ & Hnw & _). cbv zeta in Hnw.
  rewrite (filter_none is_wait _ Hnw). reflexivity.
Qed.

Lemma missing_child_ends_with_status_1_witness :
  let w := calm no_env [(103%positive, 512); (104%positive, 0)] in
  (exists st, res (run w (build ["digenv"]) [] (boot w)) = Returned 3%nat st)
  /\ (length (reaped w) < 3)%nat
  /\ exit_status (res (digenv w ["digenv"])) = Some 1
  /\ exists pre,
       trace (digenv w ["digenv"])
       = pre ++ [EvWait (-1) 0;
                 EvPerror "@digenv: wait() returned unexpectedly"; EvExit 1]
       /\ length (List.filter is_wait pre) = length (reaped w).
Proof.
  intros w.
  assert (H : exists st,
             res (run w (build ["digenv"]) [] (boot w)) = Returned 3%nat st)
    by (vm_compute; eauto).
  destruct H as [st H]. split; [exists st; exact H|].
  assert (Hlen : (length (reaped w) < 3)%nat) by (cbn; lia).
  split; [exact Hlen|].
  exact (missing_child_ends_with_status_1 w ["digenv"] 3%nat st H Hlen).
Defined.

(** X5: when a [pipe], [fork] or [close] of the parent fails, the parent
    exits with status 1 without a single [wait]: the children it has
    created by then are left to themselves. *)
Theorem failed_build_is_not_waited_for w argv :
  existsb build_failed (trace (digenv w argv)) = true ->
  existsb is_wait (trace (digenv w argv)) = false
  /\ exit_status (res (digenv w argv)) = Some 1.
Proof.
  intros Hf.
  destruct (res (run w (build argv) [] (boot w))) as [cur st|o st] eqn:Hrb.
  - exfalso.
    destruct (digenv_build_returned w argv cur st Hrb) as [_ Htr].
    destruct (build_returned_facts w argv cur st Hrb) as [_ Hq].
    rewrite Htr, existsb_app in Hf.
    rewrite (existsb_none build_failed reaper_call
               _ reaper_not_build_failed (tail_calls w cur [] st)) in Hf.
    rewrite orb_false_r in Hf.
    apply existsb_exists in Hf as (e & He & Hbad).
    apply list_elem_of_In in He.
    rewrite Forall_forall in Hq. destruct (Hq e He) as [Hfe _].
    unfold build_failed in Hbad. rewrite Hfe in Hbad. discriminate Hbad.
  - destruct (digenv_build_ended w argv o st Hrb) as [-> ->].
    destruct (build_calls w argv (boot w)) as (_ & Hnw & _). cbv zeta in Hnw.
    split; [exact Hnw|].
    destruct (build_children w argv (boot w)) as (pipes & _ & _ & Hres).
    cbv zeta in Hres. rewrite Hrb in Hres. destruct Hres as [-> _].
    reflexivity.
Qed.

Lemma failed_build_is_not_waited_for_witness :
  let w := faulty [([], 4%nat)] no_env
             [(103%positive, 0); (104%positive, 0); (107%positive, 0)] in
  existsb build_failed (trace (digenv w ["digenv"])) = true
  /\ length (spawned (digenv w ["digenv"])) = 1%nat
  /\ existsb is_wait (trace (digenv w ["digenv"])) = false
  /\ exit_status (res (digenv w ["digenv"])) = Some 1.
Proof.
  intros w.
  assert (Hf : existsb build_failed (trace (digenv w ["digenv"])) = true)
    by (vm_compute; reflexivity).
  split; [exact Hf|]. split; [vm_compute; reflexivity|].
  exact (failed_build_is_not_waited_for w ["digenv"] Hf).
Defined.

(** X6: with or without arguments, a process is only ever created after
    three pipes have been, and no pipe is created after that. *)
Theorem pipes_come_first w argv :
  existsb is_fork (trace (digenv w argv)) = true ->
  exists p0 p1 p2 rest,
    trace (digenv w argv)
    = EvPipe 0 p0 :: EvPipe 0 p1 :: EvPipe 0 p2 :: rest
    /\ existsb is_pipe rest = false.
Proof.
  intros Hf.
  destruct (build_calls w argv (boot w)) as (_ & _ & Hpipes).
  cbv zeta in Hpipes.
  destruct (res (run w (build argv) [] (boot w))) as [cur st|o st] eqn:Hrb.
  - destruct (digenv_build_returned w argv cur st Hrb) as [_ Htr].
    rewrite Htr in Hf |- *. rewrite existsb_app in Hf.
    pose proof (tail_calls w cur [] st) as Htail.
    rewrite (existsb_none is_fork reaper_call _ reaper_not_fork Htail) in Hf.
    rewrite orb_false_r in Hf.
    destruct (Hpipes Hf) as (p0 & p1 & p2 & rest & -> & Hrest).
    exists p0, p1, p2, (rest ++ trace (run w (reap cur 0 ≫= exit (A := Empty_set)) [] st)).
    split; [reflexivity|].
    rewrite existsb_app, Hrest.
    apply (existsb_none is_pipe reaper_call _ reaper_not_pipe Htail).
  - destruct (digenv_build_ended w argv o st Hrb) as [_ Htr].
    rewrite Htr in Hf |- *. exact (Hpipes Hf).
Qed.

Lemma pipes_come_first_witness :
  let w := calm no_env [] in
  existsb is_fork (trace (digenv w ["digenv"; "PATH"])) = true
  /\ exists p0 p1 p2 rest,
       trace (digenv w ["digenv"; "PATH"])
       = EvPipe 0 p0 :: EvPipe 0 p1 :: EvPipe 0 p2 :: rest
       /\ existsb is_pipe rest = false.
Proof.
  intros w.
  assert (Hf : existsb is_fork (trace (digenv w ["digenv"; "PATH"])) = true)
    by (vm_compute; reflexivity).
  split; [exact Hf|]. exact (pipes_come_first w ["digenv"; "PATH"] Hf).
Defined.

Lemma parent_call_more fds fds' e :
  parent_call fds e -> parent_call (fds ++ fds') e.
Proof. destruct e; cbn; auto. intros H. apply elem_of_app. auto. Qed.

Lemma reaper_parent_call fds e : reaper_call e = true -> parent_call fds e.
Proof. destruct e; cbn; auto; discriminate. Qed.

Lemma pipe_fds_app tr1 tr2 : pipe_fds (tr1 ++ tr2) = pipe_fds tr1 ++ pipe_fds tr2.
Proof. apply flat_map_app. Qed.

(** X7: from start to exit the parent calls nothing but [pipe], [fork],
    [close], [wait], [printf], [perror] and [exit]: it never redirects a
    descriptor of its own, never looks the environment up and never turns
    into another program; and it only closes descriptors that its own
    [pipe] calls returned. *)
Theorem parent_only_builds_and_waits w argv :
  Forall (parent_call (pipe_fds (trace (digenv w argv))))
    (trace (digenv w argv)).
Proof.
  destruct (build_calls w argv (boot w)) as (Hb & _ & _). cbv zeta in Hb.
  destruct (res (run w (build argv) [] (boot w))) as [cur st|o st] eqn:Hrb.
  - destruct (digenv_build_returned w argv cur st Hrb) as [_ ->].
    rewrite pipe_fds_app. apply Forall_app. split.
    + eapply Forall_impl; [exact Hb|]. intros e. apply parent_call_more.
    + apply Forall_forall. intros e He. apply reaper_parent_call.
      pose proof (tail_calls w cur [] st) as Htail.
      rewrite forallb_forall in Htail. apply Htail, list_elem_of_In, He.
  - destruct (digenv_build_ended w argv o st Hrb) as [_ ->]. exact Hb.
Qed.

(** ** A stage whose wiring fails *)

Ltac stops_done :=
  sym_cbn;
  let Hbad := fresh "Hbad" in
  intros Hbad;
  first
    [ solve [eexists; repeat split; reflexivity]
    | exfalso;
      repeat (rewrite bool_decide_eq_false_2 in Hbad by congruence);
      discriminate Hbad ].

Section Stops.
Context (w : world).

Lemma stage_printenv_stops pipes cur me st :
  stops (run w (stage_printenv pipes cur) me st).
Proof. unfold stops, stage_printenv. repeat sym_step; stops_done. Qed.

Lemma stage_grep_stops argv pipes cur me st :
  stops (run w (stage_grep argv pipes cur) me st).
Proof. unfold stops, stage_grep. repeat sym_step; stops_done. Qed.

Lemma stage_sort_stops pipes cur me st :
  stops (run w (stage_sort pipes cur) me st).
Proof. unfold stops, stage_sort. repeat sym_step; stops_done. Qed.

Lemma stage_pager_stops pipes cur me st :
  stops (run w (stage_pager pipes cur) me st).
Proof. unfold stops, stage_pager, check_pager. repeat sym_step; stops_done. Qed.
End Stops.

(** X8: a stage with a failed [dup2] or [close] never runs a program on
    half-made wiring: it has tried no [exec] and has not looked PAGER up; it
    ends with a [perror] message and status 1. *)
Theorem wiring_failure_stops_stage w argv c :
  c ∈ spawned (digenv w argv) ->
  existsb wiring_failed (did c) = true ->
  exists st,
    fate c = Ended (Exited 1) st
    /\ reported (did c) = true
    /\ existsb is_exec (did c) = false
    /\ consults_pager (did c) = false.
Proof.
  intros Hin Hbad.
  assert (Hgen : forall blk,
             stops (run w blk (who c) (born c)) -> behaves w blk c ->
             exists st,
               fate c = Ended (Exited 1) st
               /\ reported (did c) = true
               /\ existsb is_exec (did c) = false
               /\ consults_pager (did c) = false).
  { intros blk Hstops (o & st & Hfate & Hres & Hdid).
    rewrite Hdid in Hbad |- *.
    destruct (Hstops Hbad) as (st' & Hres' & Hrest).
    exists st'. split; [congruence|exact Hrest]. }
  destruct (child_is_stage w argv c Hin) as (pipes & cur & [H|[H|[H|H]]]);
    (eapply Hgen; [|exact H]).
  - apply stage_printenv_stops.
  - apply stage_grep_stops.
  - apply stage_sort_stops.
  - apply stage_pager_stops.
Qed.

Lemma wiring_failure_stops_stage_witness :
  let w := faulty [([4%nat], 6%nat)] no_env [] in
  exists c,
    c ∈ spawned (digenv w ["digenv"])
    /\ existsb wiring_failed (did c) = true
    /\ exists st,
         fate c = Ended (Exited 1) st
         /\ reported (did c) = true
         /\ existsb is_exec (did c) = false
         /\ consults_pager (did c) = false.
Proof.
  intros w. pick_child 1%nat c Hc Hin. exists c.
  assert (Hbad : existsb wiring_failed (did c) = true)
    by (rewrite <- Hc; vm_compute; reflexivity).
  split; [exact Hin|]. split; [exact Hbad|].
  exact (wiring_failure_stops_stage w ["digenv"] c Hin Hbad).
Defined.

(** ** The two ends of the pipeline *)

Section Ends.
Context (w : world) (pipes : list pipe_def) (open : list (nat * pend)).
Implicit Types (t : gmap Z fobj) (s : pstate).

(** Lines 113-120 leave descriptor 0 alone. *)
Lemma wire_out_stdin t o me s1 s2 s3 r1 r2 r3 t1 t2 t3 :
  layout pipes open t ->
  (o, ReadEnd) ∈ open -> (o, WriteEnd) ∈ open ->
  guarded w me s1 (do_dup2 t (fd_at pipes o PIPE_OUT) STDOUT_FILENO) = (r1, t1) ->
  -1 <> r1 ->
  guarded w me s2 (do_close t1 (fd_at pipes o PIPE_IN)) = (r2, t2) ->
  -1 <> r2 ->
  guarded w me s3 (do_close t2 (fd_at pipes o PIPE_OUT)) = (r3, t3) ->
  -1 <> r3 ->
  t3 !! 0 = t !! 0.
Proof.
  intros Hlay HoR HoW E1 H1 E2 H2 E3 H3.
  pose proof Hlay as [Hne _].
  destruct (Hne _ _ HoR) as [HR0 _]. destruct (Hne _ _ HoW) as [HW0 HW1].
  cbn [side] in *.
  apply (redirected _ _ _ _ (PipeEnd o WriteEnd)) in E1;
    [|assumption|apply (layout_held _ _ _ _ _ Hlay HoW)|done|assumption].
  apply closed in E2; [|assumption]. apply closed in E3; [|assumption].
  subst t3 t2 t1.
  rewrite !lookup_delete_ne by congruence.
  apply lookup_insert_ne. done.
Qed.

(** Lines 235-238 leave descriptor 1 alone. *)
Lemma wire_in_stdout t i me s1 s2 r1 r2 t1 t2 :
  layout pipes open t ->
  (i, ReadEnd) ∈ open -> (i, WriteEnd) ∈ open ->
  guarded w me s1 (do_dup2 t (fd_at pipes i PIPE_IN) STDIN_FILENO) = (r1, t1) ->
  -1 <> r1 ->
  guarded w me s2 (do_close t1 (fd_at pipes i PIPE_OUT)) = (r2, t2) ->
  -1 <> r2 ->
  t2 !! 1 = t !! 1.
Proof.
  intros Hlay HiR HiW E1 H1 E2 H2.
  pose proof Hlay as [Hne _].
  destruct (Hne _ _ HiR) as [HR0 HR1]. destruct (Hne _ _ HiW) as [_ HW1].
  cbn [side] in *.
  apply (redirected _ _ _ _ (PipeEnd i ReadEnd)) in E1;
    [|assumption|apply (layout_held _ _ _ _ _ Hlay HiR)|done|assumption].
  apply closed in E2; [|assumption]. subst t2 t1.
  rewrite lookup_delete_ne by congruence.
  apply lookup_insert_ne. done.
Qed.

Lemma stage_printenv_stdin cur me st f v st' :
  layout pipes open (fdt st) ->
  (cur, ReadEnd) ∈ open -> (cur, WriteEnd) ∈ open ->
  res (run w (stage_printenv pipes cur) me st) = Ended (Became f v) st' ->
  fdt st' !! 0 = fdt st !! 0.
Proof.
  intros Hlay HoR HoW. unfold stage_printenv.
  repeat sym_step; sym_cbn; try discriminate.
  intros [= <- <- <-]. cbn [fdt]. eapply wire_out_stdin; eassumption.
Qed.

Lemma stage_pager_stdout cur me st f v st' :
  layout pipes open (fdt st) ->
  (cur - 1, ReadEnd)%nat ∈ open -> (cur - 1, WriteEnd)%nat ∈ open ->
  res (run w (stage_pager pipes cur) me st) = Ended (Became f v) st' ->
  fdt st' !! 1 = fdt st !! 1.
Proof.
  intros Hlay HiR HiW. unfold stage_pager, check_pager.
  repeat sym_step; sym_cbn; try discriminate.
  all: intros [= <- <- <-]; cbn [fdt]; eapply wire_in_stdout; eassumption.
Qed.
End Ends.

(** A stage that has turned into its program, with what it was born with
    and what it holds. *)
Lemma stage_tables w argv i c f v st' :
  0 ∈ open_at_start w -> 1 ∈ open_at_start w ->
  spawned (digenv w argv) !! i = Some c ->
  fate c = Ended (Became f v) st' ->
  exists pipes open inp outp,
    born_open argv !! i = Some open
    /\ wiring argv !! i = Some (inp, outp)
    /\ layout pipes open (fdt (born c))
    /\ std (fdt (born c))
    /\ tidy inp outp (fdt (born c)) (fdt st')
    /\ (i = 0%nat -> fdt st' !! 0 = fdt (born c) !! 0)
    /\ (i = sink_index argv -> fdt st' !! 1 = fdt (born c) !! 1).
Proof.
  intros H0 H1 Hc Hfate.
  destruct (digenv_born w argv H0 H1) as (pipes & Hch & Hborn).
  destruct (Forall2_lookup_r _ _ _ _ _ Hch Hc) as (blk & Hblk & Hb).
  destruct (Forall2_lookup_r _ _ _ _ _ Hborn Hc) as (open & Hopen & Hlay & Hstd).
  apply lookup_take_Some in Hblk as [Hblk _].
  apply lookup_take_Some in Hopen as [Hopen _].
  destruct Hb as (o & st & Hfate' & Hres & _).
  rewrite Hfate in Hfate'. injection Hfate' as <- <-.
  exists pipes, open.
  unfold plan in Hblk. unfold born_open in Hopen |- *. unfold wiring, sink_index.
  destruct (decide (Z.of_nat (length argv) > 1));
    [rewrite (decide_True (P := (1 < length argv)%nat)) by lia
    |rewrite (decide_False (P := (1 < length argv)%nat)) by lia];
    destruct i as [|[|[|[|i]]]]; try discriminate Hblk;
    injection Hblk as <-; injection Hopen as <-;
    do 2 eexists; (split; [reflexivity|]); (split; [reflexivity|]);
    (split; [exact Hlay|]); (split; [exact Hstd|]).
  - split; [eapply stage_printenv_tidy;
              [exact Hlay|exact Hstd|in_ends..|exact Hres]|].
    split; [intros _|discriminate].
    eapply (stage_printenv_stdin w pipes _ 0); [exact Hlay|in_ends..|exact Hres].
  - split; [eapply (stage_grep_tidy w argv pipes 1);
              [lia|exact Hlay|exact Hstd|in_ends..|exact Hres]|].
    split; discriminate.
  - split; [eapply (stage_sort_tidy w pipes 2);
              [lia|exact Hlay|exact Hstd|in_ends..|exact Hres]|].
    split; discriminate.
  - split; [eapply (stage_pager_tidy w pipes 3);
              [exact Hlay|exact Hstd|in_ends..|exact Hres]|].
    split; [discriminate|intros _].
    eapply (stage_pager_stdout w pipes _ 3); [exact Hlay|in_ends..|exact Hres].
  - split; [eapply stage_printenv_tidy;
              [exact Hlay|exact Hstd|in_ends..|exact Hres]|].
    split; [intros _|discriminate].
    eapply (stage_printenv_stdin w pipes _ 0); [exact Hlay|in_ends..|exact Hres].
  - split; [eapply (stage_sort_tidy w pipes 1);
              [lia|exact Hlay|exact Hstd|in_ends..|exact Hres]|].
    split; discriminate.
  - split; [eapply (stage_pager_tidy w pipes 2);
              [exact Hlay|exact Hstd|in_ends..|exact Hres]|].
    split; [discriminate|intros _].
    eapply (stage_pager_stdout w pipes _ 2); [exact Hlay|in_ends..|exact Hres].
Qed.

(** X9: started with descriptors 0 and 1 open, the pipeline reads and
    writes where the program itself would: the first stage turns into
    printenv with the standard input the program was started with, and the
    last stage turns into the pager with the standard output the program was
    started with. *)
Theorem pipeline_ends_keep_streams w argv i c f v st' :
  0 ∈ open_at_start w -> 1 ∈ open_at_start w ->
  spawned (digenv w argv) !! i = Some c ->
  fate c = Ended (Became f v) st' ->
  (i = 0%nat -> fdt st' !! 0 = Some (Inherited 0))
  /\ (i = sink_index argv -> fdt st' !! 1 = Some (Inherited 1)).
Proof.
  intros H0 H1 Hc Hfate.
  destruct (stage_tables w argv i c f v st' H0 H1 Hc Hfate)
    as (pipes & open & inp & outp & _ & _ & _ & [Hs0 Hs1] & _ & Hin & Hout).
  split; intros Hi.
  - rewrite (Hin Hi). exact Hs0.
  - rewrite (Hout Hi). exact Hs1.
Qed.

Lemma pipeline_ends_keep_streams_witness :
  let w := calm (pager_is "more") [] in
  exists c st',
    0 ∈ open_at_start w /\ 1 ∈ open_at_start w
    /\ spawned (digenv w ["digenv"; "PATH"]) !! 3%nat = Some c
    /\ fate c = Ended (Became "more" ["more"]) st'
    /\ 3%nat = sink_index ["digenv"; "PATH"]
    /\ fdt st' !! 1 = Some (Inherited 1).
Proof.
  intros w.
  assert (H0 : 0 ∈ open_at_start w) by (apply list_elem_of_In; cbn; tauto).
  assert (H1 : 1 ∈ open_at_start w) by (apply list_elem_of_In; cbn; tauto).
  assert (Hc : is_Some (spawned (digenv w ["digenv"; "PATH"]) !! 3%nat))
    by (vm_compute; eauto).
  destruct Hc as [c Hc].
  assert (Hf : exists st', fate c = Ended (Became "more" ["more"]) st').
  { pose proof Hc as Hc'. vm_compute in Hc'. injection Hc' as <-. eauto. }
  destruct Hf as [st' Hf]. exists c, st'.
  assert (Hi : 3%nat = sink_index ["digenv"; "PATH"]) by reflexivity.
  repeat (split; [assumption|]).
  exact (proj2 (pipeline_ends_keep_streams w _ _ c _ _ st' H0 H1 Hc Hf) Hi).
Defined.

(** X10: started with descriptors 0 and 1 open, a write end of the pipe
    that feeds a stage is held only upstream of that stage: no stage that
    has turned into its program holds a write end of a pipe with a lower
    number than its own position, and the parent, when it starts to wait,
    holds no end of any pipe that connects two stages. *)
Theorem write_ends_stay_upstream w argv :
  0 ∈ open_at_start w -> 1 ∈ open_at_start w ->
  (forall i c f v st' p fd,
      spawned (digenv w argv) !! i = Some c ->
      fate c = Ended (Became f v) st' ->
      (p < i)%nat ->
      fdt st' !! fd <> Some (PipeEnd p WriteEnd))
  /\ (forall cur st p e fd,
        res (run w (build argv) [] (boot w)) = Returned cur st ->
        (S p < cur)%nat ->
        fdt st !! fd <> Some (PipeEnd p e)).
Proof.
  intros H0 H1. split.
  - intros i c f v st' p fd Hc Hfate Hp.
    destruct (stage_tables w argv i c f v st' H0 H1 Hc Hfate)
      as (pipes & open & inp & outp & Hopen & Hwire & [_ Hl] & [Hs0 Hs1]
          & (Hinp & _ & Hrest) & _).
    destruct (decide (inp = Some p)) as [Hi|Hi];
      [exact (proj2 (Hinp p Hi) fd)|].
    assert (Ho : outp <> Some p /\ (p, WriteEnd) ∉ open).
    { unfold wiring in Hwire. unfold born_open in Hopen.
      destruct (decide (Z.of_nat (length argv) > 1));
        destruct i as [|[|[|[|i]]]]; try discriminate Hwire; try lia;
        injection Hwire as <- <-; injection Hopen as <-;
        (split; [intros [= <-]; lia|]);
        rewrite list_elem_of_In; cbn;
        intros Hin; repeat destruct Hin as [[= <-]|Hin]; try lia;
        try (apply Hi; reflexivity); try exact Hin. }
    destruct Ho as [Ho Hnot]. rewrite (Hrest fd p WriteEnd Hi Ho).
    destruct (decide (fd = 0)) as [->|Hf0]; [rewrite Hs0; discriminate|].
    destruct (decide (fd = 1)) as [->|Hf1]; [rewrite Hs1; discriminate|].
    rewrite (Hl fd p WriteEnd Hf0 Hf1). tauto.
  - intros cur st p e fd Hret Hp.
    destruct (build_children w argv (boot w)) as (pipes & _ & _ & Hres).
    cbv zeta in Hres. rewrite Hret in Hres.
    destruct Hres as (Hcur & _ & _ & _ & Hlay).
    destruct (Hlay (boot_fresh w H0 H1)) as [[_ Hl] [Hs0 Hs1]].
    destruct (decide (fd = 0)) as [->|Hf0]; [rewrite Hs0; discriminate|].
    destruct (decide (fd = 1)) as [->|Hf1]; [rewrite Hs1; discriminate|].
    rewrite (Hl fd p e Hf0 Hf1). intros [Hin _].
    unfold left_open in Hin. unfold plan in Hcur.
    destruct (decide (Z.of_nat (length argv) > 1)).
    + apply elem_of_nil in Hin. exact Hin.
    + cbn in Hcur. subst cur. apply list_elem_of_In in Hin. cbn in Hin.
      repeat destruct Hin as [[= <- <-]|Hin]; try lia; exact Hin.
Qed.

Lemma write_ends_stay_upstream_witness :
  let w := calm no_env [] in
  0 ∈ open_at_start w /\ 1 ∈ open_at_start w
  /\ (exists c st',
        spawned (digenv w ["digenv"]) !! 2%nat = Some c
        /\ fate c = Ended (Became "less" ["less"]) st'
        /\ (1 < 2)%nat
        /\ fdt st' !! 6 <> Some (PipeEnd 1 WriteEnd))
  /\ exists st,
       res (run w (build ["digenv"]) [] (boot w)) = Returned 3%nat st
       /\ (2 < 3)%nat
       /\ fdt st !! 6 <> Some (PipeEnd 1 WriteEnd).
Proof.
  intros w.
  assert (H0 : 0 ∈ open_at_start w) by (apply list_elem_of_In; cbn; tauto).
  assert (H1 : 1 ∈ open_at_start w) by (apply list_elem_of_In; cbn; tauto).
  split; [exact H0|]. split; [exact H1|].
  destruct (write_ends_stay_upstream w ["digenv"] H0 H1) as [Hstage Hparent].
  split.
  - assert (Hc : is_Some (spawned (digenv w ["digenv"]) !! 2%nat))
      by (vm_compute; eauto).
    destruct Hc as [c Hc].
    assert (Hf : exists st', fate c = Ended (Became "less" ["less"]) st').
    { pose proof Hc as Hc'. vm_compute in Hc'. injection Hc' as <-. eauto. }
    destruct Hf as [st' Hf]. exists c, st'.
    assert (Hp : (1 < 2)%nat) by lia.
    repeat (split; [assumption|]).
    exact (Hstage 2%nat c _ _ st' 1%nat 6 Hc Hf Hp).
  - assert (H : exists st,
               res (run w (build ["digenv"]) [] (boot w)) = Returned 3%nat st)
      by (vm_compute; eauto).
    destruct H as [st H]. exists st.
    assert (Hp : (2 < 3)%nat) by lia.
    repeat (split; [assumption|]).
    exact (Hparent 3%nat st 1%nat WriteEnd 6 H Hp).
Defined.

(** ** When nothing fails from outside *)

Section Undisturbed.
Context (w : world) (Hcalm : undisturbed w).
Implicit Types (t : gmap Z fobj) (s : pstate).

(** A [dup2] of a pipe end the process holds onto descriptor 0 or 1 cannot
    fail, nor can a [close] of it. *)
Lemma dup2_held pipes open t p e newfd me s r t' :
  layout pipes open t -> (p, e) ∈ open -> newfd = 0 \/ newfd = 1 ->
  guarded w me s (do_dup2 t (fd_at pipes p (side e)) newfd) = (r, t') ->
  -1 <> r /\ layout pipes open t'.
Proof.
  intros L Hin Hnew. unfold guarded. rewrite Hcalm.
  destruct (proj1 L p e Hin) as [H0 H1].
  rewrite (do_dup2_ok _ _ _ _ (layout_held _ _ _ _ _ L Hin))
    by (destruct Hnew; subst; first [lia | assumption]).
  intros [= <- <-]. split; [destruct Hnew; lia|].
  apply layout_redirect; assumption.
Qed.

Lemma close_held pipes open t p e me s r t' :
  layout pipes open t -> (p, e) ∈ open ->
  guarded w me s (do_close t (fd_at pipes p (side e))) = (r, t') ->
  -1 <> r /\ layout pipes (without (p, e) open) t'.
Proof.
  intros L Hin. unfold guarded, do_close. rewrite Hcalm.
  rewrite (layout_held _ _ _ _ _ L Hin). intros [= <- <-].
  split; [lia|]. apply layout_close; assumption.
Qed.
End Undisturbed.

Ltac held_in :=
  first
    [ assumption
    | apply list_elem_of_In; cbn; auto 10; fail
    | apply elem_of_without; split;
      [held_in | first [discriminate | intros [= ?]; lia]] ].

(** One call further along a path on which nothing fails from outside. *)
Ltac held_step Hcalm :=
  match goal with
  | E : guarded ?w ?me ?s (do_dup2 ?t (fd_at ?pipes ?p (side ?e)) ?new) = (?r, ?t'),
    L : layout ?pipes ?open ?t |- _ =>
      let Hr := fresh "Hr" in
      let L' := fresh "L" in
      destruct (dup2_held w Hcalm pipes open t p e new me s r t' L)
        as [Hr L'];
      [held_in | first [left; reflexivity | right; reflexivity] | exact E
      | clear E L]
  | E : guarded ?w ?me ?s (do_close ?t (fd_at ?pipes ?p (side ?e))) = (?r, ?t'),
    L : layout ?pipes ?open ?t |- _ =>
      let Hr := fresh "Hr" in
      let L' := fresh "L" in
      destruct (close_held w Hcalm pipes open t p e me s r t' L) as [Hr L'];
      [held_in | exact E | clear E L]
  end.

Ltac runs_done Hcalm :=
  sym_cbn;
  change PIPE_IN with (side ReadEnd) in *;
  change PIPE_OUT with (side WriteEnd) in *;
  first
    [ solve [eexists; reflexivity]
    | exfalso;
      repeat match goal with
        | H : fault _ _ _ = true |- _ => rewrite Hcalm in H; discriminate H
        end;
      repeat held_step Hcalm; congruence ].

Section Runs.
Context (w : world) (Hcalm : undisturbed w).

Lemma stage_printenv_runs pipes cur open me st :
  layout pipes open (fdt st) ->
  (cur, ReadEnd) ∈ open -> (cur, WriteEnd) ∈ open ->
  exists st',
    res (run w (stage_printenv pipes cur) me st)
    = Ended (Became "printenv" ["printenv"]) st'.
Proof.
  intros L HR HW. unfold stage_printenv. repeat sym_step; runs_done Hcalm.
Qed.

Lemma stage_grep_runs argv pipes cur open me st :
  (1 <= cur)%nat ->
  layout pipes open (fdt st) ->
  (cur - 1, ReadEnd)%nat ∈ open -> (cur - 1, WriteEnd)%nat ∈ open ->
  (cur, ReadEnd) ∈ open -> (cur, WriteEnd) ∈ open ->
  exists st',
    res (run w (stage_grep argv pipes cur) me st)
    = Ended (Became "grep" argv) st'.
Proof.
  intros Hcur L HiR HiW HoR HoW. unfold stage_grep.
  repeat sym_step; runs_done Hcalm.
Qed.

Lemma stage_sort_runs pipes cur open me st :
  (1 <= cur)%nat ->
  layout pipes open (fdt st) ->
  (cur - 1, ReadEnd)%nat ∈ open -> (cur - 1, WriteEnd)%nat ∈ open ->
  (cur, ReadEnd) ∈ open -> (cur, WriteEnd) ∈ open ->
  exists st',
    res (run w (stage_sort pipes cur) me st)
    = Ended (Became "sort" ["sort"]) st'.
Proof.
  intros Hcur L HiR HiW HoR HoW. unfold stage_sort.
  repeat sym_step; runs_done Hcalm.
Qed.

Lemma stage_pager_runs pipes cur open me st :
  layout pipes open (fdt st) ->
  (cur - 1, ReadEnd)%nat ∈ open -> (cur - 1, WriteEnd)%nat ∈ open ->
  exists st',
    res (run w (stage_pager pipes cur) me st)
    = match environ w "PAGER" with
      | Some pager => Ended (Became pager [pager]) st'
      | None => Ended (Became "less" ["less"]) st'
      end.
Proof.
  intros L HiR HiW. unfold stage_pager, check_pager.
  repeat sym_step; runs_done Hcalm.
Qed.

(** Started with descriptors 0 and 1 open, [build] creates every stage. *)
Lemma build_returns argv st :
  fresh_start st ->
  exists cur st', res (run w (build argv) [] st) = Returned cur st'.
Proof.
  intros Hfresh. walk_build.
  all: first
    [ solve [do 2 eexists; reflexivity]
    | exfalso;
      repeat match goal with
        | H : fault _ _ _ = true |- _ => rewrite Hcalm in H; discriminate H
        end;
      pose proof (layout_fresh st Hfresh) as L;
      destruct Hfresh as (S & Hnp & _); rewrite ?Hnp in *;
      change PIPE_IN with (side ReadEnd) in *;
      change PIPE_OUT with (side WriteEnd) in *;
      chain; repeat held_step Hcalm; congruence ].
Qed.
End Runs.

(** Membership in a list that is written out. *)
Ltac in_list :=
  apply list_elem_of_In; cbn; repeat first [left; reflexivity | right].



(** ** The stages, position by position *)

Lemma stage_ends_behaves w targets blk (c : proc Empty_set) :
  stage_ends targets (run w blk (who c) (born c)) ->
  behaves w blk c ->
  (exists st, fate c = Ended (Exited 1) st)
  \/ (exists f v st, fate c = Ended (Became f v) st /\ (f, v) ∈ targets).
Proof.
  intros [_ Hhow _] (o & st & Hfate & Hres & _).
  destruct Hhow as [(st' & Hres' & _) | (f & v & st' & Hres' & Htg)];
    rewrite Hres in Hres'; injection Hres' as -> ->; eauto 6.
Qed.

(** X12: the processes created are the commands of the pipeline in their
    order: the first can only turn into printenv, the next into grep with
    the arguments when there are any, the next into sort, and the last into
    the program PAGER names, less or more; each of them otherwise exits with
    status 1. *)
Theorem stages_come_in_order w argv :
  Forall2
    (fun targets c =>
       (exists st, fate c = Ended (Exited 1) st)
       \/ (exists f v st,
              fate c = Ended (Became f v) st /\ (f, v) ∈ targets))
    (take (length (spawned (digenv w argv)))
       (candidates argv (environ w "PAGER")))
    (spawned (digenv w argv)).
Proof.
  destruct (digenv_children w argv) as (pipes & Hch & _).
  apply Forall2_same_length_lookup. split.
  - apply Forall2_length in Hch. rewrite length_take in Hch.
    rewrite length_take.
    unfold plan in Hch. unfold candidates.
    destruct (decide (Z.of_nat (length argv) > 1));
      [rewrite (decide_True (P := (1 < length argv)%nat)) by lia
      |rewrite (decide_False (P := (1 < length argv)%nat)) by lia];
      cbn [length app] in Hch |- *; lia.
  - intros i targets c Htg Hc.
    destruct (Forall2_lookup_r _ _ _ _ _ Hch Hc) as (blk & Hblk & Hb).
    apply lookup_take_Some in Hblk as [Hblk _].
    apply lookup_take_Some in Htg as [Htg _].
    unfold plan in Hblk. unfold candidates in Htg.
    destruct (decide (Z.of_nat (length argv) > 1));
      [rewrite (decide_True (P := (1 < length argv)%nat)) in Htg by lia
      |rewrite (decide_False (P := (1 < length argv)%nat)) in Htg by lia];
      destruct i as [|[|[|[|i]]]]; try discriminate Hblk;
      injection Hblk as <-; injection Htg as <-;
      (eapply stage_ends_behaves; [|exact Hb]).
    + apply stage_printenv_ends.
    + apply stage_grep_ends.
    + apply stage_sort_ends.
    + apply stage_pager_ends.
    + apply stage_printenv_ends.
    + apply stage_sort_ends.
    + apply stage_pager_ends.
Qed.

(** ** Stages are born with their pipes *)

(** X13: started with descriptors 0 and 1 open, every stage process is
    born holding both ends of the pipe it is to read from and of the pipe it
    is to write to, on descriptors other than 0 and 1: the parent closes its
    ends of a pipe only after it has created the stages on both sides. *)
Theorem stage_inherits_its_pipes w argv i c inp outp p e :
  0 ∈ open_at_start w -> 1 ∈ open_at_start w ->
  spawned (digenv w argv) !! i = Some c ->
  wiring argv !! i = Some (inp, outp) ->
  inp = Some p \/ outp = Some p ->
  exists fd, fd <> 0 /\ fd <> 1 /\ fdt (born c) !! fd = Some (PipeEnd p e).
Proof.
  intros H0 H1 Hc Hwire Hp.
  destruct (digenv_born w argv H0 H1) as (pipes & _ & Hborn).
  destruct (Forall2_lookup_r _ _ _ _ _ Hborn Hc) as (open & Hopen & Hlay & _).
  apply lookup_take_Some in Hopen as [Hopen _].
  assert (Hin : (p, e) ∈ open).
  { unfold wiring in Hwire. unfold born_open in Hopen.
    destruct (decide (Z.of_nat (length argv) > 1));
      destruct i as [|[|[|[|i]]]]; try discriminate Hwire;
      injection Hwire as <- <-; injection Hopen as <-;
      destruct Hp as [[= <-]|[= <-]]; destruct e; in_list. }
  exists (fd_at pipes p (side e)).
  destruct (proj1 Hlay p e Hin) as [Hf0 Hf1].
  split; [exact Hf0|]. split; [exact Hf1|].
  exact (layout_held _ _ _ _ _ Hlay Hin).
Qed.

Lemma stage_inherits_its_pipes_witness :
  let w := calm no_env [] in
  exists c,
    0 ∈ open_at_start w /\ 1 ∈ open_at_start w
    /\ spawned (digenv w ["digenv"]) !! 1%nat = Some c
    /\ wiring ["digenv"] !! 1%nat = Some (Some 0%nat, Some 1%nat)
    /\ exists fd,
         fd <> 0 /\ fd <> 1
         /\ fdt (born c) !! fd = Some (PipeEnd 1 WriteEnd).
Proof.
  intros w.
  assert (H0 : 0 ∈ open_at_start w) by (apply list_elem_of_In; cbn; tauto).
  assert (H1 : 1 ∈ open_at_start w) by (apply list_elem_of_In; cbn; tauto).
  assert (Hc : is_Some (spawned (digenv w ["digenv"]) !! 1%nat))
    by (vm_compute; eauto).
  destruct Hc as [c Hc]. exists c.
  assert (Hw : wiring ["digenv"] !! 1%nat = Some (Some 0%nat, Some 1%nat))
    by reflexivity.
  repeat (split; [assumption|]).
  exact (stage_inherits_its_pipes w ["digenv"] 1%nat c _ _ 1%nat WriteEnd
           H0 H1 Hc Hw (or_intror eq_refl)).
Defined.

(** ** The environment *)

Section Environment.
Context (w : world).

Lemma stage_pager_getenv pipes cur me st :
  List.filter is_getenv (trace (run w (stage_pager pipes cur) me st))
  = [] \/
  List.filter is_getenv (trace (run w (stage_pager pipes cur) me st))
  = [EvGetenv "PAGER" (environ w "PAGER")].
Proof.
  unfold stage_pager, check_pager.
  repeat sym_step; sym_cbn; first [left; reflexivity | right; congruence].
Qed.
End Environment.

Lemma consults_none tr : consults_pager tr = false -> List.filter is_getenv tr = [].
Proof. apply filter_none. Qed.

Lemma parent_call_no_getenv fds tr :
  Forall (parent_call fds) tr -> List.filter is_getenv tr = [].
Proof.
  induction 1 as [|e tr He _ IH]; [reflexivity|].
  cbn. rewrite IH. destruct e; cbn in He |- *; reflexivity || contradiction.
Qed.

Lemma reaper_not_getenv e : reaper_call e = true -> is_getenv e = false.
Proof. destruct e; cbn; try discriminate; reflexivity. Qed.

(** X14: the environment is looked up by no process but the last stage,
    and by that one for PAGER only and at most once; the parent and the
    other stages never call [getenv]. *)
Theorem only_the_sink_reads_the_environment w argv :
  List.filter is_getenv (trace (digenv w argv)) = []
  /\ forall i c,
       spawned (digenv w argv) !! i = Some c ->
       List.filter is_getenv (did c) = []
       \/ (i = sink_index argv
           /\ List.filter is_getenv (did c)
              = [EvGetenv "PAGER" (environ w "PAGER")]).
Proof.
  split.
  - destruct (build_calls w argv (boot w)) as (Hb & _ & _). cbv zeta in Hb.
    apply parent_call_no_getenv in Hb.
    destruct (res (run w (build argv) [] (boot w))) as [cur st|o st] eqn:Hrb.
    + destruct (digenv_build_returned w argv cur st Hrb) as [_ ->].
      rewrite List.filter_app, Hb. apply filter_none.
      apply (existsb_none is_getenv reaper_call _ reaper_not_getenv
               (tail_calls w cur [] st)).
    + destruct (digenv_build_ended w argv o st Hrb) as [_ ->]. exact Hb.
  - intros i c Hc.
    destruct (digenv_children w argv) as (pipes & Hch & _).
    destruct (Forall2_lookup_r _ _ _ _ _ Hch Hc) as (blk & Hblk & Hb).
    apply lookup_take_Some in Hblk as [Hblk _].
    destruct Hb as (o & st & _ & _ & Hdid). rewrite Hdid.
    unfold plan in Hblk. unfold sink_index.
    destruct (decide (Z.of_nat (length argv) > 1));
      [rewrite (decide_True (P := (1 < length argv)%nat)) by lia
      |rewrite (decide_False (P := (1 < length argv)%nat)) by lia];
      destruct i as [|[|[|[|i]]]]; try discriminate Hblk;
      injection Hblk as <-.
    + left. apply consults_none, stage_printenv_no_pager.
    + left. apply consults_none, stage_grep_no_pager.
    + left. apply consults_none, stage_sort_no_pager.
    + destruct (stage_pager_getenv w pipes 3 (who c) (born c)); auto.
    + left. apply consults_none, stage_printenv_no_pager.
    + left. apply consults_none, stage_sort_no_pager.
    + destruct (stage_pager_getenv w pipes 2 (who c) (born c)); auto.
Qed.

Lemma only_the_sink_reads_the_environment_witness :
  let w := calm (pager_is "more") [] in
  exists c,
    spawned (digenv w ["digenv"]) !! 2%nat = Some c
    /\ 2%nat = sink_index ["digenv"]
    /\ List.filter is_getenv (did c) = [EvGetenv "PAGER" (Some "more")]
    /\ List.filter is_getenv (trace (digenv w ["digenv"])) = [].
Proof.
  intros w.
  assert (Hc : is_Some (spawned (digenv w ["digenv"]) !! 2%nat))
    by (vm_compute; eauto).
  destruct Hc as [c Hc]. exists c.
  destruct (only_the_sink_reads_the_environment w ["digenv"]) as [Hp Hs].
  split; [exact Hc|]. split; [reflexivity|]. split; [|exact Hp].
  destruct (Hs 2%nat c Hc) as [Hno|[_ Hyes]]; [|exact Hyes].
  exfalso. pose proof Hc as Hc'. vm_compute in Hc'. injection Hc' as Hc'.
  rewrite <- Hc' in Hno. discriminate Hno.
Defined.

(** ** Started without a standard output *)

Lemma lowest_free_1 (t : gmap Z fobj) :
  is_Some (t !! 0) -> t !! 1 = None -> lowest_free t = 1.
Proof.
  intros [o H0] H1. unfold lowest_free.
  destruct (size t) as [|n] eqn:Hsize.
  - apply map_size_empty_inv in Hsize. subst t.
    rewrite lookup_empty in H0. discriminate H0.
  - cbn. rewrite H0. destruct n as [|n]; [reflexivity|].
    cbn. change (0 + 1) with 1. rewrite H1. reflexivity.
Qed.

Section FirstChild.
Context (w : world).

(** The first child is created after three successful [pipe] calls, with
    the table these have left, to run lines 106-125. *)
Lemma first_child_born argv st c :
  spawned (run w (build argv) [] st) !! 0%nat = Some c ->
  exists p0 p1 p2,
    p0 = (do_pipe (npipes st) (fdt st)).1
    /\ behaves w (stage_printenv [p0; p1; p2] 0) c.
Proof.
  walk_build.
  all: try discriminate.
  all: intros [= <-]; do 3 eexists; split; [reflexivity|].
  all: do 2 eexists; split; [reflexivity|split; [eassumption|reflexivity]].
Qed.

(** Lines 113-120 when the read end of the pipe is on descriptor 1. *)
Lemma stage_printenv_closes_stdout pipes cur me st f v st' :
  fd_at pipes cur PIPE_IN = 1 ->
  res (run w (stage_printenv pipes cur) me st) = Ended (Became f v) st' ->
  fdt st' !! 1 = None.
Proof.
  intros Hfd. unfold stage_printenv. rewrite Hfd.
  repeat sym_step; sym_cbn; try discriminate.
  intros [= <- <- <-]. cbn [fdt tick].
  repeat match goal with
    | E : guarded _ _ _ (do_close _ _) = _ |- _ =>
        apply closed in E; [|assumption]
    end.
  subst. rewrite !lookup_delete. repeat case_decide; congruence.
Qed.
End FirstChild.

Lemma boot_closed w fd : fd ∉ open_at_start w -> fdt (boot w) !! fd = None.
Proof.
  intros Hno. cbn. apply not_elem_of_list_to_map_1.
  rewrite <- list_fmap_compose. intros Hin.
  apply list_elem_of_fmap in Hin as (fd' & -> & Hin). exact (Hno Hin).
Qed.

(** The first child of the whole program. *)
Lemma digenv_first_child w argv c :
  spawned (digenv w argv) !! 0%nat = Some c ->
  exists p0 p1 p2,
    p0 = (do_pipe 0 (fdt (boot w))).1
    /\ behaves w (stage_printenv [p0; p1; p2] 0) c.
Proof.
  rewrite digenv_spawned.
  destruct (spawned (run w (build argv) [] (boot w))) as [|c0 cs] eqn:Hsp;
    [discriminate|].
  destruct (first_child_born w argv (boot w) c0) as (p0 & p1 & p2 & Hp0 & Hb);
    [rewrite Hsp; reflexivity|].
  destruct Hb as (o & st & Hfate & Hres & Hdid).
  cbn [flat_map]. unfold continue_proc at 1. rewrite Hfate.
  cbn [continue spawned res trace app]. intros [= <-].
  exists p0, p1, p2. split; [exact Hp0|].
  exists o, st. cbn [fate who born did]. rewrite app_nil_r. auto.
Qed.

(** X15: started with descriptor 0 open and descriptor 1 closed, the
    program puts the read end of its first pipe on descriptor 1, and the
    first stage, closing that end after it has redirected its output there,
    closes its own standard output: when it turns into printenv, descriptor
    1 is closed. *)
Theorem closed_stdout_leaves_printenv_without_output w argv c f v st' :
  0 ∈ open_at_start w -> 1 ∉ open_at_start w ->
  spawned (digenv w argv) !! 0%nat = Some c ->
  fate c = Ended (Became f v) st' ->
  f = "printenv" /\ fdt st' !! 1 = None.
Proof.
  intros H0 H1 Hc Hfate.
  destruct (digenv_first_child w argv c Hc) as (p0 & p1 & p2 & Hp0 & Hb).
  pose proof Hb as (o & st & Hfate' & Hres & _).
  rewrite Hfate in Hfate'. injection Hfate' as <- <-. split.
  - destruct (stage_printenv_ends w [p0; p1; p2] 0 (who c) (born c))
      as [_ [(st0 & Hres' & _) | (f' & v' & st0 & Hres' & Htg)] _];
      rewrite Hres in Hres'; [discriminate Hres'|].
    injection Hres' as -> -> _.
    apply list_elem_of_singleton in Htg. congruence.
  - apply (stage_printenv_closes_stdout w [p0; p1; p2] 0 _ _ _ _ _) in Hres;
      [exact Hres|].
    subst p0. change (lowest_free (fdt (boot w)) = 1). apply lowest_free_1.
    + rewrite (boot_open w 0 H0). eauto.
    + apply boot_closed, H1.
Qed.

Lemma closed_stdout_leaves_printenv_without_output_witness :
  let w := no_stdout in
  exists c st',
    0 ∈ open_at_start w /\ (1 ∉ open_at_start w)
    /\ spawned (digenv w ["digenv"]) !! 0%nat = Some c
    /\ fate c = Ended (Became "printenv" ["printenv"]) st'
    /\ "printenv" = "printenv" /\ fdt st' !! 1 = None.
Proof.
  intros w.
  assert (H0 : 0 ∈ open_at_start w) by (apply list_elem_of_In; cbn; tauto).
  assert (H1 : 1 ∉ open_at_start w).
  { intros H. apply list_elem_of_In in H. cbn in H.
    destruct H as [H|[H|[]]]; discriminate H. }
  assert (Hc : is_Some (spawned (digenv w ["digenv"]) !! 0%nat))
    by (vm_compute; eauto).
  destruct Hc as [c Hc].
  assert (Hf : exists st', fate c = Ended (Became "printenv" ["printenv"]) st').
  { pose proof Hc as Hc'. vm_compute in Hc'. injection Hc' as <-. eauto. }
  destruct Hf as [st' Hf]. exists c, st'.
  repeat (split; [assumption|]).
  exact (closed_stdout_leaves_printenv_without_output w ["digenv"] c _ _ st'
           H0 H1 Hc Hf).
Defined.

(** ** What reaches descriptor 1 *)

Lemma string_app_nil_r s : s +:+ "" = s.
Proof.
  induction s as [|a s IH]; [reflexivity|].
  change (String a (s +:+ "") = String a s). f_equal. exact IH.
Qed.

Lemma string_app_assoc s1 s2 s3 : (s1 +:+ s2) +:+ s3 = s1 +:+ (s2 +:+ s3).
Proof.
  induction s1 as [|a s1 IH]; [reflexivity|].
  change (String a ((s1 +:+ s2) +:+ s3) = String a (s1 +:+ (s2 +:+ s3))).
  f_equal. exact IH.
Qed.

Lemma lines_split s : complete_lines s +:+ unfinished_line s = s.
Proof.
  induction s as [|a s IH]; [reflexivity|]. cbn [complete_lines unfinished_line].
  destruct (Ascii.eqb a (Ascii.ascii_of_nat 10) || has_newline s);
    [|reflexivity].
  change (String a (complete_lines s +:+ unfinished_line s) = String a s).
  f_equal. exact IH.
Qed.

(** [printf] loses nothing. *)
Lemma put_keeps io p s : (put io p s).1 +:+ (put io p s).2 = p +:+ s.
Proof.
  unfold put. cbv zeta.
  destruct (capacity io <? String.length (p +:+ s))%nat;
    [apply string_app_nil_r|].
  destruct (mode io); [destruct (has_newline s)|]; cbn [fst snd];
    first [apply lines_split | reflexivity].
Qed.

(** As long as the process does not turn into another program, what has
    been written and what is in the buffer make up all that was printed. *)
Lemma stdio_keeps io tr : forall o,
  stays tr ->
  wrote (fold_left (stdio_step io) tr o)
  +:+ pending (fold_left (stdio_step io) tr o)
  = (wrote o +:+ pending o) +:+ text_of tr.
Proof.
  induction tr as [|e tr IH]; intros o Hst.
  - cbn. symmetry. apply string_app_nil_r.
  - apply Forall_cons in Hst as [He Hst]. cbn [fold_left].
    rewrite (IH _ Hst).
    destruct e; cbn [stdio_step text_of wrote pending];
      try reflexivity.
    + subst ok. reflexivity.
    + subst ok. reflexivity.
    + rewrite (string_app_assoc (wrote o)), put_keeps.
      rewrite <- !string_app_assoc. reflexivity.
    + rewrite !string_app_nil_r. reflexivity.
Qed.

(** A process that has exited without turning into another program has
    written all it printed. *)
Lemma exit_writes_all io tr status :
  stays tr ->
  wrote (stdio_run io (tr ++ [EvExit status])) = text_of tr.
Proof.
  intros Hst. unfold stdio_run. rewrite fold_left_app. cbn [fold_left stdio_step wrote].
  apply (stdio_keeps io tr (Out "" "") Hst).
Qed.

Section Exiting.
Context (w : world).

(** A process that has exited has done so with its last call. *)
Lemma exited_last {A : Type} (p : prog A) : forall me st status st',
  res (run w p me st) = Ended (Exited status) st' ->
  exists tr, trace (run w p me st) = tr ++ [EvExit status].
Proof.
  induction p as [a | R c k IH]; intros me st status st'; [discriminate|].
  assert (Hstep : forall e r me1 st1,
             res (run w (k r) me1 st1) = Ended (Exited status) st' ->
             exists tr, e :: trace (run w (k r) me1 st1) = tr ++ [EvExit status]).
  { intros e r me1 st1 H. destruct (IH r me1 st1 status st' H) as [tr ->].
    exists (e :: tr). reflexivity. }
  destruct c; cbn -[guarded].
  - destruct (fault w me (clock st)); cbn; apply Hstep.
  - destruct (fault w me (clock st)); cbn; apply Hstep.
  - apply Hstep.
  - apply Hstep.
  - destruct (fault w me (clock st)); cbn; [apply Hstep|discriminate].
  - destruct (fault w me (clock st)); cbn; [apply Hstep|discriminate].
  - apply Hstep.
  - apply Hstep.
  - apply Hstep.
  - destruct (reaped w !! nwaits st) as [[pid status']|]; cbn; apply Hstep.
  - intros [= <- <-]. exists []. reflexivity.
Qed.
End Exiting.

Lemma text_of_stdout tr : text_of (output_on Stdout tr) = text_of tr.
Proof.
  unfold output_on. induction tr as [|e tr IH]; [reflexivity|].
  destruct e; cbn [List.filter writes_to text_of]; rewrite ?IH; reflexivity.
Qed.

Lemma stays_app tr1 tr2 : stays (tr1 ++ tr2) -> stays tr1.
Proof. intros H. apply Forall_app in H. tauto. Qed.

Lemma text_of_app tr1 tr2 : text_of (tr1 ++ tr2) = text_of tr1 +:+ text_of tr2.
Proof.
  induction tr1 as [|e tr1 IH]; [reflexivity|].
  destruct e; cbn [app text_of]; rewrite ?IH, ?string_app_assoc;
    reflexivity.
Qed.

(** The parent ends by [exit], and never turns into another program. *)
Lemma parent_exits w argv :
  exists status st, res (digenv w argv) = Ended (Exited status) st.
Proof.
  destruct (res (run w (build argv) [] (boot w))) as [cur st|o st] eqn:Hrb.
  - destruct (digenv_build_returned w argv cur st Hrb) as [-> _].
    rewrite tail_run.
    destruct (reap_ends w cur 0 [] st) as [_ Hr].
    destruct (res (run w (reap cur 0) [] st)) as [ev st'|o st']; [eauto|].
    destruct Hr as [-> _]. eauto.
  - destruct (digenv_build_ended w argv o st Hrb) as [-> _].
    destruct (build_children w argv (boot w)) as (pipes & _ & _ & Hres).
    cbv zeta in Hres. rewrite Hrb in Hres. destruct Hres as [-> _]. eauto.
Qed.

Lemma parent_stays w argv : stays (trace (digenv w argv)).
Proof.
  assert (Hcall : forall fds e,
             parent_call fds e ->
             match e with
             | EvExeclp _ _ ok | EvExecvp _ _ ok => ok = false
             | _ => True
             end).
  { intros fds e. destruct e; cbn; tauto. }
  destruct (build_calls w argv (boot w)) as (Hb & _ & _). cbv zeta in Hb.
  destruct (res (run w (build argv) [] (boot w))) as [cur st|o st] eqn:Hrb.
  - destruct (digenv_build_returned w argv cur st Hrb) as [_ ->].
    apply Forall_app. split.
    + eapply Forall_impl; [exact Hb|]. apply Hcall.
    + apply Forall_forall. intros e He.
      apply (Hcall []), reaper_parent_call.
      pose proof (tail_calls w cur [] st) as Htail.
      rewrite forallb_forall in Htail. apply Htail, list_elem_of_In, He.
  - destruct (digenv_build_ended w argv o st Hrb) as [_ ->].
    eapply Forall_impl; [exact Hb|]. apply Hcall.
Qed.

(** The parent ends by [exit] and never turns into another program: the
    text of its [printf] calls, which [output_on Stdout] collects, is what
    it writes to descriptor 1. *)
Lemma parent_output_is_written w argv io :
  wrote (stdio_run io (trace (digenv w argv)))
  = text_of (output_on Stdout (trace (digenv w argv))).
Proof.
  destruct (parent_exits w argv) as (status & st & Hres).
  destruct (exited_last w (main argv) [] (boot w) status st Hres) as [tr Htr].
  fold (digenv w argv) in Htr.
  pose proof (parent_stays w argv) as Hst.
  rewrite text_of_stdout. rewrite Htr in Hst |- *.
  rewrite exit_writes_all by exact (stays_app _ _ Hst).
  rewrite text_of_app. cbn [text_of]. symmetry. apply string_app_nil_r.
Qed.
